(** * inkscribe-art: the capture-and-transcode pipeline

    A shallow embedding of the two React hooks of the repository and of the
    page that drives them:

    - [useAnimationRecorder] (src/hooks/useAnimationRecorder.ts, three
      revisions: hand-drawn text, background-image loading, html2canvas),
    - [useMp4Converter] (the FFmpeg.wasm wrapper),
    - [Index] (pages/Index.tsx, two revisions): the message field, the
      words of a message and its reveal, the Generate, Reset and Download
      buttons and the end of the recording,
    - [FlowWriteAnimation] (components/FlowWriteAnimation.tsx).

    Hook state ([useState], [useRef]) is an explicit record; the browser
    objects the hooks talk to (MediaRecorder instances, interval timers, the
    console, the transcoding engine) are part of the same record, so that
    every call is a state transformer.  Exceptions and [try]/[catch]/
    [finally] are modelled by a small state-and-exception monad.

    Conventions.  A call of a hook function sees the hook state of the latest
    render (React re-renders between two events).  A JavaScript string is a
    [string]; one [ascii] stands for one UTF-16 code unit, and only the
    length and the order of the units matter below.  The engine's progress
    signal, a floating-point number, is a rational. *)

From Stdlib Require Import ZArith QArith Qround Qminmax Lqa Ascii.
From stdpp Require Import base list sorting strings gmap pretty.

Open Scope string_scope.
Open Scope list_scope.
Open Scope stdpp_scope.
Open Scope Z_scope.

(* ================================================================== *)
(** * JavaScript primitives used by the sources *)
(* ================================================================== *)

Module Js.

(** [Array.prototype.slice(start, end)] and [String.prototype.slice]:
    negative indices count from the end, everything is clamped to
    [0 .. length]. *)
Definition clamp_index (len i : Z) : Z :=
  if i <? 0 then Z.max (len + i) 0 else Z.min i len.

Definition slice {A : Type} (start end_ : Z) (l : list A) : list A :=
  let len := Z.of_nat (length l) in
  let from := clamp_index len start in
  let to := clamp_index len end_ in
  take (Z.to_nat (Z.max (to - from) 0)) (drop (Z.to_nat from) l).

Definition string_slice (start end_ : Z) (s : string) : string :=
  String.string_of_list_ascii
    (slice start end_ (String.list_ascii_of_string s)).

(** [Math.round]: the nearest integer, halves rounded towards plus
    infinity. *)
Definition Math_round (x : Q) : Z := Qfloor (x + (1 # 2))%Q.

(** [s.replace(/[:.]/g, "-")]. *)
Definition dash_colon_dot (c : ascii) : ascii :=
  if bool_decide (c = ":"%char) || bool_decide (c = "."%char)
  then "-"%char else c.

Fixpoint replace_colon_dot (s : string) : string :=
  match s with
  | EmptyString => EmptyString
  | String c s' => String (dash_colon_dot c) (replace_colon_dot s')
  end.

(** [l.slice(start)]: up to the end. *)
Definition slice_from {A : Type} (start : Z) (l : list A) : list A :=
  slice start (Z.of_nat (length l)) l.

(** The class [\s] of regular expressions, which is also what [trim()]
    strips, on the units below 256: TAB, LF, VT, FF, CR, space and the
    no-break space. *)
Definition white_space (c : ascii) : bool :=
  let n := N_of_ascii c in
  ((9 <=? n)%N && (n <=? 13)%N) || (n =? 32)%N || (n =? 160)%N.

Fixpoint drop_while {A : Type} (p : A → bool) (l : list A) : list A :=
  match l with
  | [] => []
  | x :: l' => if p x then drop_while p l' else l
  end.

(** [s.trim()] *)
Definition trim (l : list ascii) : list ascii :=
  reverse (drop_while white_space (reverse (drop_while white_space l))).

(** [s.split(re)] for a regular expression [re] of the form [[...]+], which
    matches the maximal runs of units in the class [sep]: the pieces
    between the runs, an empty piece before a leading run and after a
    trailing one.  [piece] is the piece being read, last unit first;
    [in_run] says that the unit before was in the class. *)
Fixpoint split_runs {A : Type} (sep : A → bool) (piece : list A)
         (in_run : bool) (l : list A) : list (list A) :=
  match l with
  | [] => [reverse piece]
  | c :: l' =>
      if sep c then
        if in_run then split_runs sep [] true l'
        else reverse piece :: split_runs sep [] true l'
      else split_runs sep (c :: piece) false l'
  end.

(** [parts.join(sep)] *)
Fixpoint join {A : Type} (sep : list A) (parts : list (list A)) : list A :=
  match parts with
  | [] => []
  | p :: rest =>
      match rest with
      | [] => p
      | _ :: _ => p ++ sep ++ join sep rest
      end
  end.

(** What a [throw] carries: the message of an [Error], the name of a
    [DOMException], or the type of a rejected event. *)
Record Error := mkError { error_message : string }.

End Js.

(* ================================================================== *)
(** * State and exceptions *)
(* ================================================================== *)

(** A computation over a state [S] either returns a value or throws; in
    both cases the state changes made so far are kept, as in JavaScript. *)

Inductive outcome (A : Type) : Type :=
| Returned (a : A)
| Thrown (e : Js.Error).
Arguments Returned {A} a.
Arguments Thrown {A} e.

Definition Eff (S A : Type) : Type := S → outcome A * S.

Definition eff_ret {S A} (a : A) : Eff S A := λ s, (Returned a, s).

Definition eff_bind {S A B} (k : A → Eff S B) (m : Eff S A) : Eff S B :=
  λ s, match m s with
       | (Returned a, s') => k a s'
       | (Thrown e, s') => (Thrown e, s')
       end.

#[global] Instance Eff_ret {S} : MRet (Eff S) := @eff_ret S.
#[global] Instance Eff_bind {S} : MBind (Eff S) := @eff_bind S.

Definition throw {S A} (e : Js.Error) : Eff S A := λ s, (Thrown e, s).
Definition gets {S A} (f : S → A) : Eff S A := λ s, (Returned (f s), s).
Definition modify {S} (f : S → S) : Eff S unit := λ s, (Returned tt, f s).

(** [try { body } catch (e) { handler e }] *)
Definition try_catch {S A} (body : Eff S A) (handler : Js.Error → Eff S A)
  : Eff S A :=
  λ s, match body s with
       | (Returned a, s') => (Returned a, s')
       | (Thrown e, s') => handler e s'
       end.

(** [try { body } finally { fin }]: [fin] runs on both exits and the
    outcome of [body] is kept unless [fin] itself throws. *)
Definition try_finally {S A} (body : Eff S A) (fin : Eff S unit) : Eff S A :=
  λ s, match body s with
       | (r, s') =>
           match fin s' with
           | (Returned _, s'') => (r, s'')
           | (Thrown e, s'') => (Thrown e, s'')
           end
       end.

Definition is_thrown {A} (r : outcome A) : bool :=
  match r with Thrown _ => true | Returned _ => false end.

(* ================================================================== *)
(** * Blobs *)
(* ================================================================== *)

Record Blob := mkBlob { blob_data : list Byte.byte; blob_type : string }.

Definition blob_size (b : Blob) : Z := Z.of_nat (length (blob_data b)).

(** [new Blob(parts, { type })]: the bytes of the parts, one after the
    other. *)
Definition new_Blob (parts : list Blob) (type : string) : Blob :=
  mkBlob (concat (map blob_data parts)) type.

(* ================================================================== *)
(** * useAnimationRecorder *)
(* ================================================================== *)

Module Recorder.

(** ** Browser objects *)

Inductive RecordingState := inactive | recording.

(** The one function the hook assigns to [ondataavailable]. *)
Inductive DataHandler := PushNonEmptyChunk.

(** The two functions the hook assigns to [onstop]: the one installed by
    [startRecording], [() => clearInterval(frameInterval)], and the one
    installed by [stopRecording], which builds the blob and resolves the
    promise. *)
Inductive StopHandler :=
| ClearFrameInterval (frameInterval : positive)
| ResolveRecording.

Record MediaRecorder := mkRecorder {
  mimeType : string;
  videoBitsPerSecond : Z;
  state : RecordingState;
  ondataavailable : option DataHandler;
  onstop : option StopHandler;
  frameInterval : option positive  (* [(mediaRecorder as any).frameInterval] *)
}.

(** ** Hook state and the part of the browser it touches *)

Record State := mkState {
  isRecording : bool;                       (* useState(false) *)
  mediaRecorderRef : option positive;       (* useRef<MediaRecorder | null> *)
  chunksRef : list Blob;                    (* useRef<Blob[]>([]) *)
  recorders : gmap positive MediaRecorder;  (* the MediaRecorder objects *)
  intervals : gset positive;                (* running setInterval timers *)
  console : list string;                    (* console.error lines *)
  toasts : list string;                     (* toast.error messages *)
  next_handle : positive                    (* next timer or object handle *)
}.

Definition initial : State :=
  mkState false None [] ∅ ∅ [] [] 1%positive.

Definition set_isRecording (b : bool) (s : State) : State :=
  mkState b (mediaRecorderRef s) (chunksRef s) (recorders s) (intervals s)
          (console s) (toasts s) (next_handle s).
Definition set_mediaRecorderRef (r : option positive) (s : State) : State :=
  mkState (isRecording s) r (chunksRef s) (recorders s) (intervals s)
          (console s) (toasts s) (next_handle s).
Definition set_chunksRef (c : list Blob) (s : State) : State :=
  mkState (isRecording s) (mediaRecorderRef s) c (recorders s) (intervals s)
          (console s) (toasts s) (next_handle s).
Definition set_recorders (m : gmap positive MediaRecorder) (s : State) : State :=
  mkState (isRecording s) (mediaRecorderRef s) (chunksRef s) m (intervals s)
          (console s) (toasts s) (next_handle s).
Definition set_intervals (i : gset positive) (s : State) : State :=
  mkState (isRecording s) (mediaRecorderRef s) (chunksRef s) (recorders s) i
          (console s) (toasts s) (next_handle s).
Definition set_console (c : list string) (s : State) : State :=
  mkState (isRecording s) (mediaRecorderRef s) (chunksRef s) (recorders s)
          (intervals s) c (toasts s) (next_handle s).
Definition set_toasts (t : list string) (s : State) : State :=
  mkState (isRecording s) (mediaRecorderRef s) (chunksRef s) (recorders s)
          (intervals s) (console s) t (next_handle s).
Definition set_next_handle (n : positive) (s : State) : State :=
  mkState (isRecording s) (mediaRecorderRef s) (chunksRef s) (recorders s)
          (intervals s) (console s) (toasts s) n.

(** What the browser answers during one call of [startRecording]. *)
Record StartEnv := mkStartEnv {
  ctx_available : bool;      (* canvas.getContext("2d") is not null *)
  background_loads : bool;   (* the Image fires onload, not onerror *)
  snapshot_renders : bool;   (* html2canvas(element, ...) resolves *)
  recorder_supported : bool  (* new MediaRecorder(stream, options) does not throw *)
}.

(** ** Primitive effects *)

Definition fresh_handle : Eff State positive :=
  λ s, (Returned (next_handle s),
        set_next_handle (Pos.succ (next_handle s)) s).

Definition setInterval : Eff State positive :=
  t ← fresh_handle;
  modify (λ s, set_intervals ({[t]} ∪ intervals s) s);;
  mret t.

Definition clearInterval (t : positive) (s : State) : State :=
  set_intervals (intervals s ∖ {[t]}) s.

Definition new_MediaRecorder (env : StartEnv) (mime : string) (bits : Z)
  : Eff State positive :=
  if recorder_supported env then
    r ← fresh_handle;
    modify (λ s, set_recorders
                   (<[r := mkRecorder mime bits inactive None None None]>
                      (recorders s)) s);;
    mret r
  else throw (Js.mkError "NotSupportedError").

Definition update_recorder (r : positive) (f : MediaRecorder → MediaRecorder)
  : State → State :=
  λ s, set_recorders (alter f r (recorders s)) s.

Definition with_state (st : RecordingState) (m : MediaRecorder) :=
  mkRecorder (mimeType m) (videoBitsPerSecond m) st
             (ondataavailable m) (onstop m) (frameInterval m).
Definition with_ondataavailable (h : DataHandler) (m : MediaRecorder) :=
  mkRecorder (mimeType m) (videoBitsPerSecond m) (state m)
             (Some h) (onstop m) (frameInterval m).
Definition with_onstop (h : StopHandler) (m : MediaRecorder) :=
  mkRecorder (mimeType m) (videoBitsPerSecond m) (state m)
             (ondataavailable m) (Some h) (frameInterval m).
Definition with_frameInterval (t : positive) (m : MediaRecorder) :=
  mkRecorder (mimeType m) (videoBitsPerSecond m) (state m)
             (ondataavailable m) (onstop m) (Some t).

Definition console_error (line : string) : Eff State unit :=
  modify (λ s, set_console (console s ++ [line]) s).

Definition toast_error (msg : string) : Eff State unit :=
  modify (λ s, set_toasts (toasts s ++ [msg]) s).

Definition setIsRecording (b : bool) : Eff State unit :=
  modify (set_isRecording b).

(** ** startRecording *)

(** The part the three revisions share, from [setInterval] to the end of
    the [try] block:
<<
    const stream = canvas.captureStream(30);
    const frameInterval = setInterval(captureFrame, 1000 / 30);
    const mediaRecorder = new MediaRecorder(stream, {...});
    chunksRef.current = [];
    mediaRecorder.ondataavailable = ...;
    mediaRecorder.onstop = () => clearInterval(frameInterval);
    mediaRecorder.start();
    mediaRecorderRef.current = mediaRecorder;
    setIsRecording(true);
    (mediaRecorder as any).frameInterval = frameInterval;
>>  *)
Definition start_encoder (env : StartEnv) : Eff State unit :=
  frameInterval ← setInterval;
  mediaRecorder ← new_MediaRecorder env "video/webm;codecs=vp9" 8000000;
  modify (set_chunksRef []);;
  modify (update_recorder mediaRecorder (with_ondataavailable PushNonEmptyChunk));;
  modify (update_recorder mediaRecorder
            (with_onstop (ClearFrameInterval frameInterval)));;
  modify (update_recorder mediaRecorder (with_state recording));;
  modify (set_mediaRecorderRef (Some mediaRecorder));;
  setIsRecording true;;
  modify (update_recorder mediaRecorder (with_frameInterval frameInterval)).

(** The recorder object a [start_encoder] that ran to its end leaves
    behind, [t] being the timer it started. *)
Definition armed_recorder (t : positive) : MediaRecorder :=
  mkRecorder "video/webm;codecs=vp9" 8000000 recording
             (Some PushNonEmptyChunk) (Some (ClearFrameInterval t)) (Some t).

(** src/hooks/useAnimationRecorder.ts, first revision: the frame is drawn
    by hand from the element's text nodes. *)
Module TextDraw.
Definition startRecording (env : StartEnv) : Eff State unit :=
  try_catch
    (if negb (ctx_available env) then mret tt      (* if (!ctx) return; *)
     else start_encoder env)
    (λ error, console_error "Error starting recording:").
End TextDraw.

(** The revision that first loads the element's CSS background image and
    awaits its [onload] / [onerror]. *)
Module BackgroundImage.
Definition startRecording (env : StartEnv) : Eff State unit :=
  try_catch
    (if negb (ctx_available env) then mret tt      (* if (!ctx) return; *)
     else
       (if background_loads env then mret tt
        else throw (Js.mkError "error"));;          (* backgroundImage.onerror = reject *)
       start_encoder env)
    (λ error, console_error "Error starting recording:").
End BackgroundImage.

(** The html2canvas revision: one snapshot is awaited before the tick is
    started, and the [catch] block also resets the flag and toasts. *)
Module Html2Canvas.
Definition startRecording (env : StartEnv) : Eff State unit :=
  try_catch
    ((if negb (ctx_available env)
      then throw (Js.mkError "Canvas context not available")
      else mret tt);;
     (if snapshot_renders env then mret tt
      else throw (Js.mkError "html2canvas"));;      (* await captureFrame() *)
     start_encoder env)
    (λ error,
       console_error "Error starting recording:";;
       setIsRecording false;;
       toast_error "Failed to start recording. Please try again.").
End Html2Canvas.

(** ** Encoder events *)

(** The recorder [r] fires [dataavailable] with [data]:
<<
    if (event.data.size > 0) chunksRef.current.push(event.data);
>>  *)
Definition fire_dataavailable (r : positive) (data : Blob) (s : State) : State :=
  match recorders s !! r with
  | Some m =>
      match ondataavailable m with
      | Some PushNonEmptyChunk =>
          if blob_size data >? 0 then set_chunksRef (chunksRef s ++ [data]) s
          else s
      | None => s
      end
  | None => s
  end.

Definition deliver (r : positive) (chunks : list Blob) (s : State) : State :=
  foldl (λ s data, fire_dataavailable r data s) s chunks.

(** ** stopRecording *)

(** The promise [stopRecording] returns is either resolved with [null] at
    once, or pending until the recorder's [stop] event. *)
Inductive StopPromise :=
| ResolvedNull
| PendingOn (r : positive).

Definition stopRecording (s : State) : StopPromise * State :=
  match mediaRecorderRef s with
  | None => (ResolvedNull, s)
  | Some r =>
      if negb (isRecording s) then (ResolvedNull, s)
      else
        let s1 := update_recorder r (with_onstop ResolveRecording) s in
        (* mediaRecorderRef.current.stop() *)
        (PendingOn r, update_recorder r (with_state inactive) s1)
  end.

(** The frame interval stored on the recorder [mediaRecorderRef] points
    to, if any. *)
Definition current_frameInterval (s : State) : option positive :=
  r ← mediaRecorderRef s; m ← recorders s !! r; frameInterval m.

(** The recorder [r] fires [stop]: its [onstop] handler runs.  The result
    is the value the pending promise is resolved with, if the handler
    resolves one. *)
Definition fire_stop (r : positive) (s : State) : option Blob * State :=
  match recorders s !! r with
  | Some m =>
      match onstop m with
      | Some (ClearFrameInterval t) => (None, clearInterval t s)
      | Some ResolveRecording =>
          let blob := new_Blob (chunksRef s) "video/webm" in
          let s1 := set_isRecording false (set_chunksRef [] s) in
          match mediaRecorderRef s1 with
          | Some _ =>
              let s2 := match current_frameInterval s1 with
                        | Some t => clearInterval t s1
                        | None => s1
                        end in
              (Some blob, s2)
          | None => (None, s1)   (* TypeError before resolve(blob) *)
          end
      | None => (None, s)
      end
  | None => (None, s)
  end.

(** A whole session as the page drives it: start, the chunks the encoder
    delivers while recording, stop, the chunks it flushes after [stop()],
    and the [stop] event. *)
Definition session (start : Eff State unit)
           (chunks flushed : list Blob) (s : State)
  : option Blob * State :=
  let s1 := (start s).2 in
  match mediaRecorderRef s1 with
  | Some r =>
      let s2 := deliver r chunks s1 in
      match stopRecording s2 with
      | (PendingOn r', s3) => fire_stop r' (deliver r' flushed s3)
      | (ResolvedNull, s3) => (None, s3)
      end
  | None => (None, s1)
  end.

End Recorder.

(* ================================================================== *)
(** * useMp4Converter *)
(* ================================================================== *)

Module Converter.

(** ** The transcoding engine

    [@ffmpeg/ffmpeg] and [@ffmpeg/util] are libraries the hook calls; what
    they answer is not decided by this repository.  They are an interface
    over a world [W] (network, wasm heap, virtual file systems) and
    handles [H] of [FFmpeg] instances.  [ffmpeg_exec] also yields the
    values of the "progress" events it fired while it ran. *)
Class FFmpegApi (W H : Type) := {
  new_FFmpeg : W → H * W;
  toBlobURL : string → string → Eff W string;
  ffmpeg_load : H → string → string → string → Eff W unit;
  ffmpeg_writeFile : H → string → list Byte.byte → Eff W unit;
  ffmpeg_exec : H → list string → W → list Q * (outcome Z * W);
  ffmpeg_readFile : H → string → Eff W (list Byte.byte)
}.

(** What the hook did, in order: every state setter it called and every
    engine instance it created or loaded. *)
Inductive Event (H : Type) :=
| SetIsConverting (b : bool)
| SetProgress (n : Z)
| Created (ffmpeg : H)
| Loaded (ffmpeg : H).
Arguments SetIsConverting {H} b.
Arguments SetProgress {H} n.
Arguments Created {H} ffmpeg.
Arguments Loaded {H} ffmpeg.

Record State (W H : Type) := mkState {
  ffmpegRef : option H;       (* useRef<FFmpeg | null>(null) *)
  isConverting : bool;        (* useState(false) *)
  progress : Z;               (* useState(0), "0-100" *)
  history : list (Event H);
  world : W
}.
Arguments mkState {W H}.
Arguments ffmpegRef {W H}.
Arguments isConverting {W H}.
Arguments progress {W H}.
Arguments history {W H}.
Arguments world {W H}.

Section Hook.
Context {W H : Type} `{!FFmpegApi W H}.

Definition initial (w : W) : State W H := mkState None false 0 [] w.

Definition set_ffmpegRef (r : option H) (s : State W H) : State W H :=
  mkState r (isConverting s) (progress s) (history s) (world s).
Definition set_world (w : W) (s : State W H) : State W H :=
  mkState (ffmpegRef s) (isConverting s) (progress s) (history s) w.
Definition record (e : Event H) (s : State W H) : State W H :=
  mkState (ffmpegRef s) (isConverting s) (progress s)
          (history s ++ [e]) (world s).

Definition setIsConverting (b : bool) : Eff (State W H) unit :=
  modify (λ s, record (SetIsConverting b)
                 (mkState (ffmpegRef s) b (progress s) (history s) (world s))).

Definition setProgress (n : Z) : Eff (State W H) unit :=
  modify (λ s, record (SetProgress n)
                 (mkState (ffmpegRef s) (isConverting s) n (history s) (world s))).

(** An engine call inside the hook: it acts on the [world] field. *)
Definition engine {A} (call : Eff W A) : Eff (State W H) A :=
  λ s, match call (world s) with (r, w) => (r, set_world w s) end.

(** The listener registered in [load]:
<<
    ffmpeg.on("progress", ({ progress }) => {
      setProgress(Math.round(progress * 100));
    });
>>  *)
Definition on_progress (p : Q) : Eff (State W H) unit :=
  setProgress (Js.Math_round (p * 100)%Q).

Fixpoint on_progress_all (ps : list Q) : Eff (State W H) unit :=
  match ps with
  | [] => mret tt
  | p :: ps' => on_progress p;; on_progress_all ps'
  end.

(** [await ffmpeg.exec(args)]: the listener runs for every event fired,
    then the call returns the exit code or throws. *)
Definition exec (ffmpeg : H) (args : list string) : Eff (State W H) Z :=
  λ s, match ffmpeg_exec ffmpeg args (world s) with
       | (events, (r, w)) =>
           match on_progress_all events (set_world w s) with
           | (_, s') => (r, s')
           end
       end.

Definition baseURL : string := "https://unpkg.com/@ffmpeg/core@0.12.6/dist/".

Definition load : Eff (State W H) H :=
  current ← gets ffmpegRef;
  match current with
  | Some ffmpeg => mret ffmpeg
  | None =>
      ffmpeg ← (λ s, match new_FFmpeg (world s) with
                     | (h, w) => (Returned h, record (Created h) (set_world w s))
                     end);
      coreURL ← engine (toBlobURL (baseURL +:+ "ffmpeg-core.js") "text/javascript");
      wasmURL ← engine (toBlobURL (baseURL +:+ "ffmpeg-core.wasm") "application/wasm");
      workerURL ← engine (toBlobURL (baseURL +:+ "ffmpeg-core.worker.js") "text/javascript");
      engine (ffmpeg_load ffmpeg coreURL wasmURL workerURL);;
      modify (record (Loaded ffmpeg));;
      modify (set_ffmpegRef (Some ffmpeg));;
      mret ffmpeg
  end.

(** [fetchFile(blob)]: the bytes of the blob as a [Uint8Array]. *)
Definition fetchFile (blob : Blob) : list Byte.byte := blob_data blob.

Definition transcode_args : list string :=
  ["-i"; "input.webm"; "-c:v"; "libx264"; "-preset"; "ultrafast";
   "-pix_fmt"; "yuv420p"; "-movflags"; "+faststart"; "output.mp4"].

(** The [try] block of [convertWebMToMp4]. *)
Definition transcode (blob : Blob) : Eff (State W H) Blob :=
  ffmpeg ← load;
  engine (ffmpeg_writeFile ffmpeg "input.webm" (fetchFile blob));;
  exec ffmpeg transcode_args;;
  data ← engine (ffmpeg_readFile ffmpeg "output.mp4");
  mret (mkBlob data "video/mp4").

Definition convertWebMToMp4 (blob : Blob) : Eff (State W H) Blob :=
  setIsConverting true;;
  setProgress 0;;
  try_finally (transcode blob) (setIsConverting false).

(** [e] is an error one of the engine's calls threw. *)
Definition thrown_by_engine (e : Js.Error) : Prop :=
  (∃ url mime w w', toBlobURL url mime w = (Thrown e, w')) ∨
  (∃ h core wasm worker w w',
      ffmpeg_load h core wasm worker w = (Thrown e, w')) ∨
  (∃ h name data w w', ffmpeg_writeFile h name data w = (Thrown e, w')) ∨
  (∃ h args w events w', ffmpeg_exec h args w = (events, (Thrown e, w'))) ∨
  (∃ h name w w', ffmpeg_readFile h name w = (Thrown e, w')).

(** What the engine can have fired during one call: nothing, or the
    events of one [ffmpeg.exec] of the transcode command. *)
Definition one_exec (ps : list Q) : Prop :=
  ps = [] ∨ ∃ h w, ps = (ffmpeg_exec h transcode_args w).1.

(** Where the outcome of a conversion comes from. *)
Definition from_engine (r : outcome Blob) : Prop :=
  match r with
  | Thrown e => thrown_by_engine e
  | Returned mp4 =>
      ∃ h w w' data,
        ffmpeg_readFile h "output.mp4" w = (Returned data, w') ∧
        mp4 = mkBlob data "video/mp4"
  end.

(** What [ffmpegRef] and the history say about the engine after a call
    that appended [pre] before any progress event. *)
Definition engine_step (before after : option H) (pre : list (Event H))
           (failed : bool) : Prop :=
  match before with
  | Some h => pre = [] ∧ after = Some h
  | None =>
      ∃ h, (pre = [Created h] ∧ after = None ∧ failed = true) ∨
           (pre = [Created h; Loaded h] ∧ after = Some h)
  end.

(** The percentage the listener passes to [setProgress]. *)
Definition percent (p : Q) : Z := Js.Math_round (p * 100)%Q.

(** The values passed to [setProgress], in order. *)
Definition progress_values (h : list (Event H)) : list Z :=
  omap (λ e, match e with SetProgress n => Some n | _ => None end) h.

(** The instances whose [ffmpeg.load] completed, in order. *)
Definition loaded_instances (h : list (Event H)) : list H :=
  omap (λ e, match e with Loaded x => Some x | _ => None end) h.

(** The events a call appended to the history. *)
Definition emitted_by {A} (m : Eff (State W H) A) (s : State W H)
  : list (Event H) :=
  drop (length (history s)) (history (m s).2).

(** The engine's own progress signal is a non-decreasing fraction of
    one: an assumption on [@ffmpeg/ffmpeg], which the hook relies on. *)
Definition fractional_progress : Prop :=
  ∀ h w, Sorted Qle (ffmpeg_exec h transcode_args w).1 ∧
         Forall (λ p, 0 <= p ∧ p <= 1)%Q (ffmpeg_exec h transcode_args w).1.

(** [ffmpegRef] holds an instance exactly when one [ffmpeg.load] has
    completed, and then it is that instance. *)
Definition loaded_once (s : State W H) : Prop :=
  match ffmpegRef s with
  | None => loaded_instances (history s) = []
  | Some h => loaded_instances (history s) = [h]
  end.

(** A sequence of calls made one after the other (the hook provides no
    lock; the page awaits each call). *)
Inductive Call := CallLoad | CallConvert (blob : Blob).

Definition run_call (c : Call) (s : State W H) : State W H :=
  match c with
  | CallLoad => (load s).2
  | CallConvert blob => (convertWebMToMp4 blob s).2
  end.

Definition run_calls (cs : list Call) (s : State W H) : State W H :=
  foldl (λ s c, run_call c s) s cs.

End Hook.

End Converter.

(* ================================================================== *)
(** * The page (pages/Index.tsx) *)
(* ================================================================== *)

Module Page.

(** What the page shows or hands to the browser. *)
Inductive Ui :=
| ToastError (msg : string)
| ToastInfo (msg : string)
| ToastSuccess (msg : string)
| ConsoleError (error : Js.Error)
| Download (blob : Blob) (filename : string).  (* downloadRecording *)

Record State (W H : Type) := mkState {
  text : string;                      (* useState of the empty string *)
  videoBlob : option Blob;            (* useState<Blob | null>(null) *)
  converter : Converter.State W H;    (* useMp4Converter() *)
  ui : list Ui
}.
Arguments mkState {W H}.
Arguments text {W H}.
Arguments videoBlob {W H}.
Arguments converter {W H}.
Arguments ui {W H}.

Definition maxChars : Z := 200.

(** The separators of [getTextParts]: the class [[\s,]]. *)
Definition space_or_comma (c : ascii) : bool :=
  Js.white_space c || bool_decide (c = ","%char).

Record TextParts := mkTextParts { staticText : string; animatedText : string }.

(** [input.trim().split(/[\s,]+/).filter(Boolean)] *)
Definition words_of (input : string) : list (list ascii) :=
  filter (λ w, w ≠ [])
         (Js.split_runs space_or_comma [] false
            (Js.trim (String.list_ascii_of_string input))).

(** The later revision of the page animates only the last four words of a
    long message:
<<
    const words = input.trim().split(/[\s,]+/).filter(Boolean);
    if (words.length <= 6) return { staticText: empty, animatedText: input };
    const staticWords = words.slice(0, -4).join(" ");
    const animatedWords = words.slice(-4).join(" ");
>>  *)
Definition getTextParts (input : string) : TextParts :=
  let words := words_of input in
  if Z.of_nat (length words) <=? 6 then mkTextParts EmptyString input
  else
    mkTextParts
      (String.string_of_list_ascii (Js.join [" "%char] (Js.slice 0 (-4) words)))
      (String.string_of_list_ascii (Js.join [" "%char] (Js.slice_from (-4) words))).

(** The text this revision builds on display, every tick appending the
    unit at its own index: if there are static words, [staticText] and
    (unless [animatedText] is empty) a space; then the units of
    [animatedText]. *)
Definition revealed (parts : TextParts) : string :=
  (if bool_decide (staticText parts = EmptyString) then EmptyString
   else staticText parts +:+
        (if bool_decide (animatedText parts = EmptyString) then EmptyString
         else " "))
  +:+ animatedText parts.

(** The earlier revision reveals the text itself, one unit per tick:
<<
    if (currentIndex < text.length) {
      setDisplayText(text.slice(0, currentIndex + 1));
      currentIndex++;
    }
>>  The state is [(currentIndex, displayText)]. *)
Definition reveal_tick (text : string) (st : Z * string) : Z * string :=
  if st.1 <? Z.of_nat (String.length text)
  then (st.1 + 1, Js.string_slice 0 (st.1 + 1) text)
  else st.

Definition reveal (text : string) (ticks : nat) : Z * string :=
  Nat.iter ticks (reveal_tick text) (0, EmptyString).

Section Page.
Context {W H : Type} `{!Converter.FFmpegApi W H}.

Definition initial (w : W) : State W H :=
  mkState EmptyString None (Converter.initial w) [].

Definition setText (t : string) (s : State W H) : State W H :=
  mkState t (videoBlob s) (converter s) (ui s).
Definition setVideoBlob (b : option Blob) (s : State W H) : State W H :=
  mkState (text s) b (converter s) (ui s).
Definition show (u : Ui) : Eff (State W H) unit :=
  modify (λ s, mkState (text s) (videoBlob s) (converter s) (ui s ++ [u])).

(** [onChange={(e) => setText(e.target.value.slice(0, maxChars))}] *)
Definition onChange (value : string) (s : State W H) : State W H :=
  setText (Js.string_slice 0 maxChars value) s.

(** The message field receives a series of change events. *)
Definition type_all (values : list string) (s : State W H) : State W H :=
  foldl (λ s v, onChange v s) s values.

(** A call of the converter hook from the page. *)
Definition in_converter {A} (m : Eff (Converter.State W H) A)
  : Eff (State W H) A :=
  λ s, match m (converter s) with
       | (r, c) => (r, mkState (text s) (videoBlob s) c (ui s))
       end.

(** [downloadRecording(blob, filename)]: an anchor is created, clicked
    and removed. *)
Definition downloadRecording (blob : Blob) (filename : string)
  : Eff (State W H) unit :=
  show (Download blob filename).

(** [new Date().toISOString().replace(/[:.]/g, "-")], [now] being the
    ISO string of the clock. *)
Definition timestamp (now : string) : string := Js.replace_colon_dot now.

Definition handleDownload (now : string) : Eff (State W H) unit :=
  videoBlob ← gets videoBlob;
  try_catch
    (match videoBlob with
     | None => show (ToastError "No video available. Generate the animation first.")
     | Some blob =>
         progress ← gets (λ s, Converter.progress (converter s));
         show (ToastInfo ("Converting to MP4... " +:+ pretty progress +:+ "%"));;
         mp4 ← in_converter (Converter.convertWebMToMp4 blob);
         downloadRecording mp4
           ("typewriter-animation-" +:+ timestamp now +:+ ".mp4");;
         show (ToastSuccess "Download ready!")
     end)
    (λ error,
       show (ConsoleError error);;
       show (ToastError "MP4 conversion failed. Downloading WebM.");;
       match videoBlob with
       | Some blob =>
           downloadRecording blob
             ("typewriter-animation-" +:+ timestamp now +:+ ".webm")
       | None => mret tt
       end).

(** The files handed to the browser, in order. *)
Definition downloads (us : list Ui) : list (Blob * string) :=
  omap (λ u, match u with Download b f => Some (b, f) | _ => None end) us.

End Page.

End Page.

(* ================================================================== *)
(** * A small engine to run the hooks on *)
(* ================================================================== *)

(** An engine that remuxes by copying: [exec] copies the file named after
    [-i] to the last argument, fires two progress events and returns exit
    code 0.  It rejects an empty or missing input the way the ffmpeg
    command line does: nothing is written, no progress is fired, and the
    exit code is 1.  Reading a file that does not exist throws.  Fetching
    the core fails while the network is down. *)
Module CopyEngine.

Record World := mkWorld {
  online : bool;
  instances : positive;                                (* next handle *)
  files : gmap (positive * string) (list Byte.byte)    (* virtual file systems *)
}.

Definition set_files (f : gmap (positive * string) (list Byte.byte)) (w : World) :=
  mkWorld (online w) (instances w) f.

Definition copy_exec (h : positive) (args : list string) (w : World)
  : list Q * (outcome Z * World) :=
  match args with
  | "-i" :: input :: rest =>
      match files w !! (h, input), last rest with
      | Some (b :: data), Some output =>
          ([1 # 2; 1]%Q,
           (Returned 0, set_files (<[(h, output) := b :: data]> (files w)) w))
      | _, _ => ([], (Returned 1, w))
      end
  | _ => ([], (Returned 1, w))
  end.

#[global] Instance api : Converter.FFmpegApi World positive := {|
  Converter.new_FFmpeg w :=
    (instances w, mkWorld (online w) (Pos.succ (instances w)) (files w));
  Converter.toBlobURL url mime w :=
    if online w then (Returned ("blob:" +:+ url), w)
    else (Thrown (Js.mkError "Failed to fetch"), w);
  Converter.ffmpeg_load h core wasm worker w := (Returned tt, w);
  Converter.ffmpeg_writeFile h name data w :=
    (Returned tt, set_files (<[(h, name) := data]> (files w)) w);
  Converter.ffmpeg_exec := copy_exec;
  Converter.ffmpeg_readFile h name w :=
    match files w !! (h, name) with
    | Some data => (Returned data, w)
    | None => (Thrown (Js.mkError "ErrnoError: FS error"), w)
    end
|}.

Definition up : World := mkWorld true 1%positive ∅.
Definition down : World := mkWorld false 1%positive ∅.

End CopyEngine.

Definition empty_clip : Blob := mkBlob [] "video/webm".
Definition chunk_a : Blob := mkBlob [Byte.x1a; Byte.x45] "video/webm;codecs=vp9".
Definition chunk_b : Blob := mkBlob [Byte.xdf] "video/webm;codecs=vp9".
Definition chunk_empty : Blob := mkBlob [] "video/webm;codecs=vp9".

Definition all_well : Recorder.StartEnv := Recorder.mkStartEnv true true true true.
Definition missing_asset : Recorder.StartEnv := Recorder.mkStartEnv true false true true.
Definition failing_snapshot : Recorder.StartEnv := Recorder.mkStartEnv true true false true.

(** States and inputs the statements below are run on. *)

Definition recording_one_chunk : Recorder.State :=
  Recorder.deliver 2 [chunk_a]
    (Recorder.TextDraw.startRecording all_well Recorder.initial).2.

Definition converter_up : Converter.State CopyEngine.World positive :=
  Converter.initial CopyEngine.up.

Definition page_with_clip (w : CopyEngine.World)
  : Page.State CopyEngine.World positive :=
  Page.setVideoBlob (Some chunk_a) (Page.initial w).

(* ================================================================== *)
(** * Runs of the recorder hook *)
(* ================================================================== *)

(** The hook as the page and the browser drive it: calls of
    [startRecording] and [stopRecording], and the [dataavailable] and
    [stop] events of any recorder, in any order. *)
Module RecorderRun.
Import Recorder.

Inductive Revision := ByTextDraw | ByBackgroundImage | ByHtml2Canvas.

Definition startRecording_of (v : Revision) : StartEnv → Eff State unit :=
  match v with
  | ByTextDraw => TextDraw.startRecording
  | ByBackgroundImage => BackgroundImage.startRecording
  | ByHtml2Canvas => Html2Canvas.startRecording
  end.

Inductive Event :=
| CallStart (env : StartEnv)
| FireData (r : positive) (data : Blob)
| CallStop
| FireStop (r : positive).

Definition step (v : Revision) (e : Event) (s : State) : State :=
  match e with
  | CallStart env => (startRecording_of v env s).2
  | FireData r data => fire_dataavailable r data s
  | CallStop => (stopRecording s).2
  | FireStop r => (fire_stop r s).2
  end.

Definition run (v : Revision) (events : list Event) (s : State) : State :=
  foldl (λ s e, step v e s) s events.

(** Timer and recorder handles are handed out in increasing order: the
    ones in use are below the next one. *)
Definition handles_fresh (s : State) : Prop :=
  (∀ t, t ∈ intervals s → (t < next_handle s)%positive) ∧
  (∀ r, is_Some (recorders s !! r) → (r < next_handle s)%positive).

(** Every recorder the hook has created carries its data handler. *)
Definition recorders_listen (s : State) : Prop :=
  ∀ r m, recorders s !! r = Some m →
         ondataavailable m = Some PushNonEmptyChunk.

(** What holds of every state the hook can be in: handles are fresh, every
    recorder listens, [mediaRecorderRef] points to a recorder that exists,
    [isRecording] is only set while a recorder is stored, and the chunk
    buffer holds no empty chunk. *)
Definition well_formed (s : State) : Prop :=
  handles_fresh s ∧
  recorders_listen s ∧
  (∀ r, mediaRecorderRef s = Some r → is_Some (recorders s !! r)) ∧
  (isRecording s = true → is_Some (mediaRecorderRef s)) ∧
  Forall (λ b, 0 < blob_size b) (chunksRef s).

(** The state a [startRecording] that went through leaves. *)
Definition armed (s : State) : State :=
  mkState true (Some (Pos.succ (next_handle s))) []
          (<[Pos.succ (next_handle s) := armed_recorder (next_handle s)]>
             (recorders s))
          ({[next_handle s]} ∪ intervals s)
          (console s) (toasts s)
          (Pos.succ (Pos.succ (next_handle s))).

(** What the [catch] blocks do: the first two revisions log, the
    html2canvas revision also resets the flag and toasts. *)
Definition logged (s : State) : State :=
  set_console (console s ++ ["Error starting recording:"]) s.
Definition logged_and_toasted (s : State) : State :=
  set_toasts (toasts s ++ ["Failed to start recording. Please try again."])
    (set_isRecording false (logged s)).

(** The state after [setInterval] alone: the timer runs, nothing else has
    changed. *)
Definition ticking (s : State) : State :=
  set_next_handle (Pos.succ (next_handle s))
    (set_intervals ({[next_handle s]} ∪ intervals s) s).

(** [dataavailable] events of several recorders, in the order they fire. *)
Definition deliver_all (events : list (positive * Blob)) (s : State) : State :=
  foldl (λ s e, fire_dataavailable e.1 e.2 s) s events.

End RecorderRun.

(* ================================================================== *)
(** * FlowWriteAnimation *)
(* ================================================================== *)

Module FlowWrite.

(** One [motion.span]: the unit it shows, the [currentCharIndex] it was
    given and the [delay] of its transition, in seconds. *)
Record Glyph := mkGlyph {
  glyph_char : ascii;
  glyph_index : Z;
  glyph_delay : Q
}.

(** [text.split(sep)] for a one-unit string [sep]: cut at every
    occurrence, empty pieces kept.  [piece] is the piece being read, last
    unit first. *)
Fixpoint split_at (sep : ascii) (piece : list ascii) (l : list ascii)
  : list (list ascii) :=
  match l with
  | [] => [reverse piece]
  | c :: l' =>
      if bool_decide (c = sep) then reverse piece :: split_at sep [] l'
      else split_at sep (c :: piece) l'
  end.

(** The inner [map] over the units of one word,
<<
    const currentCharIndex = charIndex++;
    const delay = (currentCharIndex * speed) / 1000;
>>  with the counter [charIndex] threaded through: the result is the
    spans of the word and the counter after it. *)
Fixpoint render_word (speed : Q) (word : list ascii) (charIndex : Z)
  : list Glyph * Z :=
  match word with
  | [] => ([], charIndex)
  | char :: rest =>
      let currentCharIndex := charIndex in
      let delay := (inject_Z currentCharIndex * speed / 1000)%Q in
      let rendered := render_word speed rest (charIndex + 1) in
      (mkGlyph char currentCharIndex delay :: rendered.1, rendered.2)
  end.

(** The outer [map] over the words. *)
Fixpoint render_words (speed : Q) (words : list (list ascii)) (charIndex : Z)
  : list (list Glyph) :=
  match words with
  | [] => []
  | word :: rest =>
      let rendered := render_word speed word charIndex in
      rendered.1 :: render_words speed rest rendered.2
  end.

(** The component: one box per word, one span per unit of the word. *)
Definition FlowWriteAnimation (text : string) (speed : Q) : list (list Glyph) :=
  render_words speed
    (split_at " "%char [] (String.list_ascii_of_string text)) 0.

End FlowWrite.

(* ================================================================== *)
(** * The page's buttons and the end of the animation *)
(* ================================================================== *)

(** The later revision of pages/Index.tsx with the two hooks it mounts:
    [handleGenerate], [handleReset], the callback that stops the recording
    once the animation is over, and [handleDownload]. *)
Module Studio.

Record State (W H : Type) := mkState {
  page : Page.State W H;          (* text, videoBlob, the converter, toasts *)
  recorder : Recorder.State;      (* useAnimationRecorder() *)
  displayText : string;
  isAnimating : bool;
  showCursor : bool;
  canDownload : bool;
  mounted : bool                  (* previewRef.current is not null *)
}.
Arguments mkState {W H}.
Arguments page {W H}.
Arguments recorder {W H}.
Arguments displayText {W H}.
Arguments isAnimating {W H}.
Arguments showCursor {W H}.
Arguments canDownload {W H}.
Arguments mounted {W H}.

Section Studio.
Context {W H : Type} `{!Converter.FFmpegApi W H}.

Definition initial (w : W) : State W H :=
  mkState (Page.initial w) Recorder.initial EmptyString false false false true.

Definition with_page (p : Page.State W H) (s : State W H) : State W H :=
  mkState p (recorder s) (displayText s) (isAnimating s) (showCursor s)
          (canDownload s) (mounted s).
Definition with_recorder (r : Recorder.State) (s : State W H) : State W H :=
  mkState (page s) r (displayText s) (isAnimating s) (showCursor s)
          (canDownload s) (mounted s).
Definition setDisplayText (t : string) (s : State W H) : State W H :=
  mkState (page s) (recorder s) t (isAnimating s) (showCursor s)
          (canDownload s) (mounted s).
Definition setIsAnimating (b : bool) (s : State W H) : State W H :=
  mkState (page s) (recorder s) (displayText s) b (showCursor s)
          (canDownload s) (mounted s).
Definition setShowCursor (b : bool) (s : State W H) : State W H :=
  mkState (page s) (recorder s) (displayText s) (isAnimating s) b
          (canDownload s) (mounted s).
Definition setCanDownload (b : bool) (s : State W H) : State W H :=
  mkState (page s) (recorder s) (displayText s) (isAnimating s) (showCursor s)
          b (mounted s).
Definition setVideoBlob (b : option Blob) (s : State W H) : State W H :=
  with_page (Page.setVideoBlob b (page s)) s.

(** A call into the page's own state or into the recorder hook. *)
Definition in_page {A} (m : Eff (Page.State W H) A) : Eff (State W H) A :=
  λ s, match m (page s) with (r, p) => (r, with_page p s) end.
Definition in_recorder {A} (m : Eff Recorder.State A) : Eff (State W H) A :=
  λ s, match m (recorder s) with (r, rec) => (r, with_recorder rec s) end.

Definition toast (u : Page.Ui) : Eff (State W H) unit := in_page (Page.show u).

(** [!text.trim()] *)
Definition blank (t : string) : bool :=
  bool_decide (Js.trim (String.list_ascii_of_string t) = []).

(**
<<
    if (!text.trim() || !previewRef.current) {
      toast.error("Please enter text to animate.");
      return;
    }
    setCanDownload(false);
    setIsAnimating(true);
    toast.info("Starting animation and recording...");
    await startRecording(previewRef.current);
>>  [start] is the revision of [startRecording] the page is built with. *)
Definition handleGenerate (start : Recorder.StartEnv → Eff Recorder.State unit)
           (env : Recorder.StartEnv) : Eff (State W H) unit :=
  text ← gets (λ s, Page.text (page s));
  mounted ← gets mounted;
  if blank text || negb mounted then
    toast (Page.ToastError "Please enter text to animate.")
  else
    modify (setCanDownload false);;
    modify (setIsAnimating true);;
    toast (Page.ToastInfo "Starting animation and recording...");;
    in_recorder (start env).

(**
<<
    setDisplayText(empty); setIsAnimating(false); setShowCursor(false);
    setCanDownload(false); setVideoBlob(null);
    toast.info("Animation reset.");
>>  *)
Definition handleReset : Eff (State W H) unit :=
  modify (setDisplayText EmptyString);;
  modify (setIsAnimating false);;
  modify (setShowCursor false);;
  modify (setCanDownload false);;
  modify (setVideoBlob None);;
  toast (Page.ToastInfo "Animation reset.").

(** The callback of the [setTimeout] set when the reveal is over:
<<
    if (isRecording) {
      const blob = await stopRecording();
      if (blob) {
        setVideoBlob(blob);
        setCanDownload(true);
        toast.success("Animation recorded! Ready to download.");
      } else {
        toast.error("Recording failed. Please try again.");
      }
    }
>>  [flushed] are the chunks the recorder delivers between [stop()] and its
    [stop] event; the [await] ends when that event resolves the promise.
    A [Blob] object is truthy whatever its size. *)
Definition stop_when_over (flushed : list Blob) : Eff (State W H) unit :=
  gets (λ s : State W H, Recorder.isRecording (recorder s)) ≫= λ recording : bool,
  if recording then
    promise ← in_recorder (λ rec, match Recorder.stopRecording rec with
                                  | (p, rec') => (Returned p, rec')
                                  end);
    match promise with
    | Recorder.ResolvedNull =>
        toast (Page.ToastError "Recording failed. Please try again.")
    | Recorder.PendingOn r =>
        resolved ← in_recorder
          (λ rec, match Recorder.fire_stop r (Recorder.deliver r flushed rec) with
                  | (b, rec') => (Returned b, rec')
                  end);
        match resolved with
        | Some blob =>
            modify (setVideoBlob (Some blob));;
            modify (setCanDownload true);;
            toast (Page.ToastSuccess "Animation recorded! Ready to download.")
        | None => mret tt          (* the promise stays pending *)
        end
    end
  else mret tt.

Definition handleDownload (now : string) : Eff (State W H) unit :=
  in_page (Page.handleDownload now).

(** The Download button is rendered when [canDownload && !isRecording] and
    enabled unless [isConverting]. *)
Definition download_offered (s : State W H) : bool :=
  canDownload s && negb (Recorder.isRecording (recorder s)).

End Studio.

End Studio.

(** A page whose message has been typed. *)
Definition studio_with_text (t : string)
  : Studio.State CopyEngine.World positive :=
  Studio.with_page (Page.onChange t (Page.initial CopyEngine.up))
                   (Studio.initial CopyEngine.up).

(* ================================================================== *)
(** * How long the recording goes on (pages/Index.tsx, earlier revision) *)
(* ================================================================== *)

(** When the last unit has been revealed, the page waits [extraTime]
    milliseconds before it stops the recording:
<<
    const totalAnimationTime = calculateAnimationDuration();
    const elapsedTime = text.length * speed[0];
    const extraTime = Math.max(totalAnimationTime - elapsedTime, 0) + 1000;
>>  Numbers are rationals.  [speed[0]] comes from a slider with [min] 50,
    [max] 300 and [step] 10; on these values every intermediate result
    below is an integer, which floating-point arithmetic computes
    exactly. *)
Module Timing.

Inductive AnimationStyle := typewriter | shimmer | fluid | flowwrite.

Definition calculateAnimationDuration
           (animationStyle : AnimationStyle) (speed : Q) (text : string) : Q :=
  let baseDelay := speed in
  let textLength := inject_Z (Z.of_nat (String.length text)) in
  match animationStyle with
  | flowwrite => textLength * (baseDelay / 10) + 500
  | fluid => textLength * 50 + 500
  | shimmer => textLength * baseDelay + 2000
  | typewriter => textLength * baseDelay
  end%Q.

Definition extraTime
           (animationStyle : AnimationStyle) (speed : Q) (text : string) : Q :=
  let totalAnimationTime :=
    calculateAnimationDuration animationStyle speed text in
  let elapsedTime := (inject_Z (Z.of_nat (String.length text)) * speed)%Q in
  (Qmax (totalAnimationTime - elapsedTime) 0 + 1000)%Q.

(** The values the speed slider can take. *)
Definition slider (speed : Q) : Prop :=
  ∃ k : Z, 5 ≤ k ≤ 30 ∧ speed = inject_Z (10 * k).

End Timing.

(* ================================================================== *)
(** * Properties of useAnimationRecorder *)
(* ================================================================== *)

(** Unfolds the monad operations in the goal. *)
Ltac eff_unfold :=
  unfold mbind, mret, Eff_bind, Eff_ret, eff_bind, eff_ret,
         modify, gets, throw, try_catch, try_finally.
Ltac eff_simpl := repeat (eff_unfold; cbn).

Section RecorderFacts.
Import Recorder.

Lemma start_encoder_supported env s :
  recorder_supported env = true →
  start_encoder env s =
    (Returned tt,
     mkState true (Some (Pos.succ (next_handle s))) []
             (<[Pos.succ (next_handle s) := armed_recorder (next_handle s)]>
                (recorders s))
             ({[next_handle s]} ∪ intervals s)
             (console s) (toasts s)
             (Pos.succ (Pos.succ (next_handle s)))).
Proof.
  intros Hsup. unfold start_encoder, new_MediaRecorder. rewrite Hsup.
  unfold setInterval, fresh_handle, setIsRecording. eff_simpl.
  unfold update_recorder, set_recorders; cbn.
  rewrite !alter_insert_eq. reflexivity.
Qed.

Lemma start_encoder_unsupported env s :
  recorder_supported env = false →
  start_encoder env s =
    (Thrown (Js.mkError "NotSupportedError"),
     set_next_handle (Pos.succ (next_handle s))
       (set_intervals ({[next_handle s]} ∪ intervals s) s)).
Proof.
  intros Hsup. unfold start_encoder, new_MediaRecorder. rewrite Hsup.
  reflexivity.
Qed.

Lemma set_chunksRef_same s : set_chunksRef (chunksRef s) s = s.
Proof. by destruct s. Qed.

(** One [dataavailable] event on a recorder that carries the hook's
    handler. *)
Lemma fire_dataavailable_handler r m data s :
  recorders s !! r = Some m →
  ondataavailable m = Some PushNonEmptyChunk →
  fire_dataavailable r data s =
    set_chunksRef (chunksRef s ++ filter (λ b, 0 < blob_size b) [data]) s.
Proof.
  intros Hr Hh. unfold fire_dataavailable. rewrite Hr, Hh.
  rewrite filter_cons, filter_nil.
  destruct (Z.gtb_spec (blob_size data) 0).
  - by rewrite decide_True by lia.
  - rewrite decide_False by lia. by rewrite app_nil_r, set_chunksRef_same.
Qed.

(** While the recorder [r] carries the hook's data handler, a run of
    [dataavailable] events appends exactly the non-empty chunks, in the
    order of the events. *)
Lemma deliver_appends r m chunks s :
  recorders s !! r = Some m →
  ondataavailable m = Some PushNonEmptyChunk →
  deliver r chunks s =
    set_chunksRef (chunksRef s ++ filter (λ b, 0 < blob_size b) chunks) s.
Proof.
  intros Hr Hh. revert s Hr.
  induction chunks as [|c chunks IH]; intros s Hr.
  - cbn. by rewrite app_nil_r, set_chunksRef_same.
  - change (deliver r (c :: chunks) s)
      with (deliver r chunks (fire_dataavailable r c s)).
    rewrite (fire_dataavailable_handler r m) by done.
    rewrite IH by done. cbn [chunksRef set_chunksRef].
    rewrite <- app_assoc, <- filter_app. reflexivity.
Qed.

End RecorderFacts.

Section RecorderClaims.
Import Recorder.

(** With everything available, the three revisions of [startRecording]
    do the same thing. *)
Lemma startRecording_all_well start s :
  start = TextDraw.startRecording ∨
  start = BackgroundImage.startRecording ∨
  start = Html2Canvas.startRecording →
  start all_well s = start_encoder all_well s.
Proof.
  intros [-> | [-> | ->]];
    unfold TextDraw.startRecording, BackgroundImage.startRecording,
           Html2Canvas.startRecording, try_catch; cbn [all_well ctx_available
           background_loads snapshot_renders negb];
    eff_unfold; by rewrite start_encoder_supported.
Qed.

(** From a state in which [mediaRecorderRef] points to an armed recorder
    and [isRecording] is set: the chunks delivered before and after
    [stop()] come out of the [stop] event as one blob. *)
Lemma armed_session_payload r t chunks flushed s :
  mediaRecorderRef s = Some r →
  isRecording s = true →
  recorders s !! r = Some (armed_recorder t) →
  let s2 := deliver r chunks s in
  let s4 := deliver r flushed (stopRecording s2).2 in
  (stopRecording s2).1 = PendingOn r ∧
  (fire_stop r s4).1 =
    Some (new_Blob (chunksRef s ++
                    filter (λ b, 0 < blob_size b) (chunks ++ flushed))
                   "video/webm") ∧
  chunksRef (fire_stop r s4).2 = [] ∧
  isRecording (fire_stop r s4).2 = false ∧
  intervals (fire_stop r s4).2 = intervals s ∖ {[t]}.
Proof.
  intros Href Hrec Hr s2 s4. subst s4 s2.
  rewrite (deliver_appends r (armed_recorder t)) by done.
  unfold stopRecording; cbn. rewrite Href, Hrec; cbn.
  erewrite deliver_appends; cycle 1.
  { cbn. rewrite !lookup_alter_eq, Hr. reflexivity. }
  { reflexivity. }
  split; [done|].
  unfold fire_stop, current_frameInterval; cbn.
  rewrite !lookup_alter_eq, Hr; cbn.
  rewrite ?Href; cbn. rewrite ?lookup_alter_eq, ?Hr; cbn.
  rewrite filter_app, app_assoc. done.
Qed.



(** C6: when no session is recording ([isRecording] is false, or no
    recorder was ever stored), [stopRecording] resolves with [null] and
    leaves the whole state as it was; nothing is thrown, and calling it
    again gives the same. *)
Theorem stopRecording_idle s :
  mediaRecorderRef s = None ∨ isRecording s = false →
  stopRecording s = (ResolvedNull, s) ∧
  stopRecording (stopRecording s).2 = (ResolvedNull, s).
Proof.
  intros Hidle.
  assert (Hstop : stopRecording s = (ResolvedNull, s)).
  { unfold stopRecording.
    destruct Hidle as [-> | ->]; [done|]. by destruct (mediaRecorderRef s). }
  by rewrite !Hstop.
Qed.

Lemma stopRecording_idle_witness :
  stopRecording initial = (ResolvedNull, initial) ∧
  stopRecording (stopRecording initial).2 = (ResolvedNull, initial).
Proof. apply stopRecording_idle. left. reflexivity. Defined.

(** No revision of [startRecording] ever throws: whatever goes wrong is
    caught and logged. *)
Lemma startRecording_returns start env s :
  start = TextDraw.startRecording ∨
  start = BackgroundImage.startRecording ∨
  start = Html2Canvas.startRecording →
  (start env s).1 = Returned tt.
Proof.
  intros [-> | [-> | ->]];
    unfold TextDraw.startRecording, BackgroundImage.startRecording,
           Html2Canvas.startRecording, try_catch;
    destruct (ctx_available env), (background_loads env),
             (snapshot_renders env), (recorder_supported env) eqn:Hsup;
    cbn [negb]; eff_unfold;
    rewrite ?start_encoder_supported, ?start_encoder_unsupported by done;
    reflexivity.
Qed.

(** C2, as the code has it: in every revision, a second [startRecording]
    while a session is recording throws nothing; when everything it needs
    is available it replaces the session: the chunk buffer is emptied,
    [mediaRecorderRef] points to a new recorder, one more sampling tick
    runs next to the first, and [isRecording] stays set.  The recorder of
    the first session is not stopped: it stays as it was, out of reach of
    [stopRecording]. *)
Theorem startRecording_again_restarts start env s :
  start = TextDraw.startRecording ∨
  start = BackgroundImage.startRecording ∨
  start = Html2Canvas.startRecording →
  isRecording s = true →
  (start env s).1 = Returned tt ∧
  let t := next_handle s in
  let r := Pos.succ t in
  let again := start all_well s in
  isRecording again.2 = true ∧
  chunksRef again.2 = [] ∧
  mediaRecorderRef again.2 = Some r ∧
  recorders again.2 !! r = Some (armed_recorder t) ∧
  (∀ r0, r0 ≠ r → recorders again.2 !! r0 = recorders s !! r0) ∧
  intervals again.2 = {[t]} ∪ intervals s.
Proof.
  intros Hstart _. split; [by apply startRecording_returns|].
  intros t r again. subst again.
  rewrite startRecording_all_well, start_encoder_supported by done.
  cbn. repeat split.
  - apply lookup_insert_eq.
  - intros r0 Hr0. by apply lookup_insert_ne.
Qed.

Lemma startRecording_again_restarts_witness :
  isRecording recording_one_chunk = true ∧
  chunksRef recording_one_chunk = [chunk_a] ∧
  let again := TextDraw.startRecording all_well recording_one_chunk in
  again.1 = Returned tt ∧
  isRecording again.2 = true ∧
  chunksRef again.2 = [] ∧
  mediaRecorderRef again.2 = Some 4%positive ∧
  recorders again.2 !! 4%positive = Some (armed_recorder 3) ∧
  (∀ r0, r0 ≠ 4%positive →
         recorders again.2 !! r0 = recorders recording_one_chunk !! r0) ∧
  intervals again.2 = {[3%positive]} ∪ intervals recording_one_chunk.
Proof.
  split; [reflexivity|]. split; [reflexivity|].
  exact (startRecording_again_restarts TextDraw.startRecording all_well
           recording_one_chunk (or_introl eq_refl) eq_refl).
Defined.

(** C2 as the specification states it fails: on a recording session
    holding one chunk, the second [startRecording] returns normally
    instead of throwing, the chunk is gone from the buffer and
    [mediaRecorderRef] has moved from recorder 2 to recorder 4. *)
Lemma startRecording_again_counterexample :
  isRecording recording_one_chunk = true ∧
  (TextDraw.startRecording all_well recording_one_chunk).1 = Returned tt ∧
  is_thrown (TextDraw.startRecording all_well recording_one_chunk).1 = false ∧
  (chunksRef recording_one_chunk = [chunk_a] ∧
   chunksRef (TextDraw.startRecording all_well recording_one_chunk).2 = []) ∧
  (mediaRecorderRef recording_one_chunk = Some 2%positive ∧
   mediaRecorderRef (TextDraw.startRecording all_well recording_one_chunk).2
   = Some 4%positive).
Proof. vm_compute. repeat split. Qed.

(** C7, as the code has it: when the observed region cannot be drawn at
    start, [startRecording] catches the error and returns normally, before
    any timer or recorder exists.  The revision that loads the background
    image writes one line to the console and changes nothing else:
    [isRecording] and the recorder reference keep their values.  The
    html2canvas revision, whose first snapshot fails, also sets
    [isRecording] to false and shows an error toast. *)
Theorem startRecording_missing_asset env s :
  ctx_available env = true →
  (background_loads env = false →
   BackgroundImage.startRecording env s =
     (Returned tt,
      set_console (console s ++ ["Error starting recording:"]) s)) ∧
  (snapshot_renders env = false →
   Html2Canvas.startRecording env s =
     (Returned tt,
      set_toasts (toasts s ++ ["Failed to start recording. Please try again."])
        (set_isRecording false
           (set_console (console s ++ ["Error starting recording:"]) s)))).
Proof.
  intros Hctx. split; intros Hfail.
  - unfold BackgroundImage.startRecording. rewrite Hctx, Hfail. reflexivity.
  - unfold Html2Canvas.startRecording. rewrite Hctx, Hfail. reflexivity.
Qed.

Lemma startRecording_missing_asset_witness :
  BackgroundImage.startRecording missing_asset initial =
    (Returned tt,
     set_console (console initial ++ ["Error starting recording:"]) initial) ∧
  intervals (BackgroundImage.startRecording missing_asset initial).2 = ∅ ∧
  Html2Canvas.startRecording failing_snapshot initial =
    (Returned tt,
     set_toasts (toasts initial ++ ["Failed to start recording. Please try again."])
       (set_isRecording false
          (set_console (console initial ++ ["Error starting recording:"])
             initial))).
Proof.
  destruct (startRecording_missing_asset missing_asset initial eq_refl)
    as [Hbg _].
  destruct (startRecording_missing_asset failing_snapshot initial eq_refl)
    as [_ Hsnap].
  split; [exact (Hbg eq_refl)|]. split; [by rewrite (Hbg eq_refl)|].
  exact (Hsnap eq_refl).
Defined.

(** C7 as the specification states it fails: with the background asset
    missing, the caller of [startRecording] gets a normal return, not an
    error, and the state it can read is the idle one it started from. *)
Lemma startRecording_missing_asset_counterexample :
  let failed := BackgroundImage.startRecording missing_asset initial in
  failed.1 = Returned tt ∧
  is_thrown failed.1 = false ∧
  isRecording failed.2 = isRecording initial ∧
  mediaRecorderRef failed.2 = mediaRecorderRef initial ∧
  toasts failed.2 = [].
Proof. vm_compute. repeat split. Qed.

End RecorderClaims.

(* ================================================================== *)
(** * Properties of useMp4Converter *)
(* ================================================================== *)

Section ConverterFacts.
Import Converter.
Context {W H : Type} `{!FFmpegApi W H}.
Implicit Types (s : State W H) (h : H) (e : Js.Error).

Lemma engine_call {A} (call : Eff W A) s :
  engine call s = ((call (world s)).1, set_world (call (world s)).2 s).
Proof. unfold engine. by destruct (call (world s)). Qed.

(** The listener only moves [progress] and extends the history. *)
Lemma on_progress_all_history ps s :
  ∃ n, on_progress_all ps s =
         (Returned tt,
          mkState (ffmpegRef s) (isConverting s) n
                  (history s ++ map (λ p, SetProgress (percent p)) ps)
                  (world s)).
Proof.
  revert s. induction ps as [|p ps IH]; intros s.
  - exists (progress s). cbn. rewrite app_nil_r. by destruct s.
  - cbn [on_progress_all]. unfold on_progress, setProgress. eff_simpl.
    match goal with |- context [on_progress_all ps ?s1] =>
      destruct (IH s1) as [n Hn]; rewrite Hn end.
    exists n. cbn. by rewrite <- app_assoc.
Qed.

(** [load] either finds the stored instance and touches nothing, or
    creates one and then stores it exactly when the fetches and
    [ffmpeg.load] went through. *)
Lemma load_cases s :
  (∃ h, ffmpegRef s = Some h ∧ load s = (Returned h, s)) ∨
  (ffmpegRef s = None ∧ ∃ h w,
      (∃ e, thrown_by_engine e ∧
            load s = (Thrown e,
                      mkState None (isConverting s) (progress s)
                              (history s ++ [Created h]) w)) ∨
      load s = (Returned h,
                mkState (Some h) (isConverting s) (progress s)
                        (history s ++ [Created h; Loaded h]) w)).
Proof.
  unfold load. eff_simpl.
  destruct (ffmpegRef s) as [h|] eqn:Href.
  { left. by exists h. }
  right. split; [done|].
  destruct (new_FFmpeg (world s)) as [h w0] eqn:Hnew. exists h.
  rewrite ?engine_call; cbn.
  destruct (toBlobURL _ _ w0) as [[core|e] w1] eqn:H1; cbn.
  2:{ exists w1. left. exists e. split; [|by unfold set_world, record; cbn; rewrite Href].
      left. eauto. }
  rewrite ?engine_call; cbn.
  destruct (toBlobURL _ _ w1) as [[wasm|e] w2] eqn:H2; cbn.
  2:{ exists w2. left. exists e. split; [|by unfold set_world, record; cbn; rewrite Href].
      left. eauto. }
  rewrite ?engine_call; cbn.
  destruct (toBlobURL _ _ w2) as [[worker|e] w3] eqn:H3; cbn.
  2:{ exists w3. left. exists e. split; [|by unfold set_world, record; cbn; rewrite Href].
      left. eauto. }
  rewrite ?engine_call; cbn.
  destruct (ffmpeg_load h core wasm worker w3) as [[[]|e] w4] eqn:H4; cbn.
  2:{ exists w4. left. exists e. split; [|by unfold set_world, record; cbn; rewrite Href].
      right; left. eauto 10. }
  exists w4. right. unfold record, set_ffmpegRef, set_world; cbn.
  by rewrite <- app_assoc.
Qed.

Local Arguments load : simpl never.
Local Arguments engine : simpl never.
Local Arguments exec : simpl never.

(** The [try] block after [load] returned the instance [h]. *)
Lemma transcode_loaded blob h s :
  let rest :=
    (engine (ffmpeg_writeFile h "input.webm" (fetchFile blob)) ≫= λ _,
     exec h transcode_args ≫= λ _,
     engine (ffmpeg_readFile h "output.mp4") ≫= λ data,
     mret (mkBlob data "video/mp4")) s in
  ∃ ps n w,
    rest.2 = mkState (ffmpegRef s) (isConverting s) n
               (history s ++ map (λ p, SetProgress (percent p)) ps) w ∧
    one_exec ps ∧ from_engine rest.1.
Proof.
  eff_simpl. rewrite engine_call.
  destruct (ffmpeg_writeFile h _ _ (world s)) as [[[]|e] w1] eqn:Hw; cbn.
  2:{ exists [], (progress s), w1. cbn. rewrite app_nil_r.
      split; [done|]. split; [by left|].
      right; right; left. eauto 10. }
  unfold exec; cbn.
  destruct (ffmpeg_exec h transcode_args w1) as [ps [rx w2]] eqn:Hx.
  destruct (on_progress_all_history ps (set_world w2 (set_world w1 s)))
    as [n Hn]. rewrite Hn. cbn.
  assert (Hps : one_exec ps).
  { right. exists h, w1. by rewrite Hx. }
  destruct rx as [code|e]; cbn.
  2:{ exists ps, n, w2. split; [done|]. split; [done|].
      right; right; right; left. eauto 10. }
  rewrite engine_call; cbn.
  destruct (ffmpeg_readFile h "output.mp4" w2) as [[data|e] w3] eqn:Hr; cbn.
  2:{ exists ps, n, w3. split; [done|]. split; [done|].
      right; right; right; right. eauto 10. }
  exists ps, n, w3. split; [done|]. split; [done|]. cbn. eauto 10.
Qed.

Lemma transcode_unfold blob s :
  transcode blob s =
    match load s with
    | (Returned h, s') =>
        (engine (ffmpeg_writeFile h "input.webm" (fetchFile blob)) ≫= λ _,
         exec h transcode_args ≫= λ _,
         engine (ffmpeg_readFile h "output.mp4") ≫= λ data,
         mret (mkBlob data "video/mp4")) s'
    | (Thrown e, s') => (Thrown e, s')
    end.
Proof. reflexivity. Qed.

(** The whole [try] block. *)
Lemma transcode_cases blob s :
  ∃ pre ps,
    history (transcode blob s).2 =
      history s ++ pre ++ map (λ p, SetProgress (percent p)) ps ∧
    isConverting (transcode blob s).2 = isConverting s ∧
    one_exec ps ∧
    engine_step (ffmpegRef s) (ffmpegRef (transcode blob s).2) pre
                (is_thrown (transcode blob s).1) ∧
    from_engine (transcode blob s).1.
Proof.
  rewrite transcode_unfold.
  destruct (load_cases s) as [(h & Href & Hload) | (Href & h & w & Hload)].
  - rewrite Hload.
    destruct (transcode_loaded blob h s) as (ps & n & w & Hs & Hps & Hout).
    cbn zeta in Hs, Hout.
    match type of Hs with (?b).2 = _ => destruct b as [rb sb] end.
    cbn [fst snd] in *. subst sb.
    exists [], ps. unfold engine_step. rewrite Href. done.
  - destruct Hload as [(e & He & Hload) | Hload]; rewrite Hload.
    + exists [Created h], []. cbn [fst snd map ffmpegRef history isConverting].
      unfold engine_step. rewrite Href, app_nil_r.
      split; [done|]. split; [done|]. split; [by left|]. split; [|done].
      exists h. by left.
    + set (s2 := mkState (Some h) (isConverting s) (progress s)
                         (history s ++ [Created h; Loaded h]) w).
      destruct (transcode_loaded blob h s2) as (ps & n & w' & Hs & Hps & Hout).
      cbn zeta in Hs, Hout.
      match type of Hs with (?b).2 = _ => destruct b as [rb sb] end.
      cbn [fst snd] in *. subst sb.
      exists [Created h; Loaded h], ps. subst s2.
      cbn [fst snd ffmpegRef isConverting history].
      unfold engine_step. rewrite Href.
      split; [by rewrite <- !app_assoc|]. split; [done|].
      split; [done|]. split; [|done].
      exists h. by right.
Qed.

(** One call of [convertWebMToMp4]: what it appends to the history, what
    becomes of [ffmpegRef], and where its outcome comes from. *)
Lemma convert_cases blob s :
  let r := convertWebMToMp4 blob s in
  ∃ pre ps,
    history r.2 =
      history s ++ [SetIsConverting true; SetProgress 0] ++ pre ++
      map (λ p, SetProgress (percent p)) ps ++ [SetIsConverting false] ∧
    isConverting r.2 = false ∧
    one_exec ps ∧
    engine_step (ffmpegRef s) (ffmpegRef r.2) pre (is_thrown r.1) ∧
    from_engine r.1.
Proof.
  intros r. subst r.
  unfold convertWebMToMp4, setIsConverting, setProgress.
  unfold try_finally. eff_unfold. cbn beta iota.
  unfold record. cbn [ffmpegRef isConverting progress history world].
  match goal with |- context [transcode blob ?st] => set (s1 := st) end.
  destruct (transcode_cases blob s1) as (pre & ps & Hh & Hc & Hps & Hstep & Hout).
  destruct (transcode blob s1) as [rb sb]. cbn [fst snd] in *.
  exists pre, ps.
  cbn [fst snd ffmpegRef isConverting history] in *.
  rewrite Hh. subst s1. cbn [history ffmpegRef] in *.
  split; [by rewrite <- !app_assoc|]. done.
Qed.

(** ** Reading the history *)

Lemma progress_values_percent ps :
  progress_values (map (λ p, SetProgress (H:=H) (percent p)) ps)
  = map percent ps.
Proof. induction ps as [|p ps IH]; [done|]. cbn. by rewrite <- IH. Qed.

Lemma loaded_instances_percent ps :
  loaded_instances (map (λ p, SetProgress (H:=H) (percent p)) ps) = [].
Proof. induction ps as [|p ps IH]; [done|]. exact IH. Qed.

Lemma emitted_by_app {A} (m : Eff (State W H) A) s evs :
  history (m s).2 = history s ++ evs → emitted_by m s = evs.
Proof. intros Hh. unfold emitted_by. rewrite Hh. apply drop_app_length. Qed.

(** The engine events of a call carry no progress value and at most one
    [Loaded]. *)
Lemma engine_step_progress before after (pre : list (Event H)) failed :
  engine_step before after pre failed → progress_values pre = [].
Proof.
  unfold engine_step. destruct before as [h|].
  - by intros [-> _].
  - by intros [h [(-> & _) | (-> & _)]].
Qed.

Lemma engine_step_flag before after (pre : list (Event H)) failed :
  engine_step before after pre failed →
  Forall (λ ev, ∀ b, ev ≠ SetIsConverting b) pre.
Proof.
  unfold engine_step. destruct before as [h|].
  - intros [-> _]. constructor.
  - intros [h [(-> & _) | (-> & _)]]; repeat constructor; discriminate.
Qed.

(** ** The percentage *)

Lemma percent_mono p q : (p <= q)%Q → percent p ≤ percent q.
Proof.
  intros Hpq. unfold percent, Js.Math_round. apply Qfloor_resp_le.
  apply Qplus_le_compat; [|apply Qle_refl].
  apply Qmult_le_compat_r; [done|discriminate].
Qed.

Lemma percent_range p : (0 <= p)%Q → (p <= 1)%Q → 0 ≤ percent p ≤ 100.
Proof.
  intros H0 H1. split.
  - change 0 with (percent 0). by apply percent_mono.
  - change 100 with (percent 1). by apply percent_mono.
Qed.

Lemma percent_sorted ps :
  Sorted Qle ps → Forall (λ p, 0 <= p ∧ p <= 1)%Q ps →
  StronglySorted Z.le (0 :: map percent ps) ∧
  Forall (λ n, 0 ≤ n ≤ 100) (0 :: map percent ps).
Proof.
  intros Hsorted Hrange.
  assert (Hin : Forall (λ n, 0 ≤ n ≤ 100) (map percent ps)).
  { apply Forall_map. eapply Forall_impl; [exact Hrange|].
    intros p [? ?]. by apply percent_range. }
  split; [|constructor; [lia|done]].
  constructor.
  - apply Sorted_StronglySorted in Hsorted; [|intros x y z; apply Qle_trans].
    clear Hrange Hin. induction Hsorted as [|p ps Hps IH Hall]; cbn.
    + constructor.
    + constructor; [done|]. apply Forall_map.
      eapply Forall_impl; [exact Hall|]. intros q. apply percent_mono.
  - eapply Forall_impl; [exact Hin|]. intros n; cbn; lia.
Qed.

End ConverterFacts.

Section ConverterClaims.
Import Converter.
Context {W H : Type} `{!FFmpegApi W H}.
Implicit Types (s : State W H) (h : H).

(** C10: every call of [convertWebMToMp4] begins with
    [setIsConverting(true)] and [setProgress(0)] and ends, whether it
    returns or throws, with [setIsConverting(false)], the only other
    change of the flag during the call; [isConverting] is false in the
    state it leaves. *)
Theorem convert_resets_progress_and_clears_flag blob s :
  let r := convertWebMToMp4 blob s in
  isConverting r.2 = false ∧
  ∃ during,
    emitted_by (convertWebMToMp4 blob) s =
      SetIsConverting true :: SetProgress 0 :: during ++ [SetIsConverting false] ∧
    Forall (λ ev, ∀ b, ev ≠ SetIsConverting b) during.
Proof.
  intros r. subst r.
  destruct (convert_cases blob s) as (pre & ps & Hh & Hc & _ & Hstep & _).
  split; [exact Hc|].
  exists (pre ++ map (λ p, SetProgress (percent p)) ps). split.
  - apply emitted_by_app. rewrite Hh. cbn. by rewrite <- app_assoc.
  - apply Forall_app. split.
    + eapply engine_step_flag, Hstep.
    + apply Forall_map, Forall_forall. intros p _ b. discriminate.
Qed.


(** C3, as the code has it: [convertWebMToMp4] makes no check of its own
    on a clip of byte length 0.  It fails only with an error thrown by one
    of the engine's calls, and then yields no blob; if none throws, it
    returns the bytes read back from "output.mp4" as a "video/mp4" blob.
    Either way [isConverting] is cleared. *)
Theorem convert_empty_clip_left_to_engine blob s :
  blob_size blob = 0 →
  let r := convertWebMToMp4 blob s in
  fetchFile blob = [] ∧
  isConverting r.2 = false ∧
  match r.1 with
  | Thrown e => thrown_by_engine e
  | Returned mp4 =>
      ∃ h w w' data,
        ffmpeg_readFile h "output.mp4" w = (Returned data, w') ∧
        mp4 = mkBlob data "video/mp4"
  end.
Proof.
  intros Hsize r. subst r.
  destruct (convert_cases blob s) as (pre & ps & _ & Hc & _ & _ & Hout).
  split; [|split; [exact Hc|exact Hout]].
  unfold fetchFile, blob_size in *.
  destruct (blob_data blob); [done|cbn in Hsize; lia].
Qed.

(** ** Initialising the engine once *)

Lemma loaded_once_initial (w : W) : loaded_once (initial w : State W H).
Proof. reflexivity. Qed.

Lemma load_keeps_loaded_once s : loaded_once s → loaded_once (load s).2.
Proof.
  unfold loaded_once.
  destruct (load_cases s) as [(h & Href & ->) | (Href & h & w & Hload)];
    [done|].
  rewrite Href. intros Hnone.
  destruct Hload as [(e & _ & ->) | ->]; cbn;
    unfold loaded_instances in *; rewrite omap_app, Hnone; done.
Qed.

Lemma convert_keeps_loaded_once blob s :
  loaded_once s → loaded_once (convertWebMToMp4 blob s).2.
Proof.
  destruct (convert_cases blob s) as (pre & ps & Hh & _ & _ & Hstep & _).
  cbn zeta in Hh, Hstep.
  assert (Hl : loaded_instances (history (convertWebMToMp4 blob s).2)
               = loaded_instances (history s) ++ loaded_instances pre).
  { rewrite Hh. unfold loaded_instances. rewrite !omap_app.
    fold (loaded_instances (map (λ p, SetProgress (H:=H) (percent p)) ps)).
    rewrite loaded_instances_percent. cbn. by rewrite app_nil_r. }
  unfold loaded_once, engine_step in *. rewrite Hl.
  destruct (ffmpegRef s) as [h|].
  - destruct Hstep as [-> ->]. intros ->. done.
  - destruct Hstep as [h [(-> & -> & _) | (-> & ->)]]; intros ->; done.
Qed.

Lemma run_calls_loaded_once calls s :
  loaded_once s → loaded_once (run_calls calls s).
Proof.
  revert s. induction calls as [|c calls IH]; intros s Hs; [done|].
  cbn. apply IH. destruct c; cbn.
  - by apply load_keeps_loaded_once.
  - by apply convert_keeps_loaded_once.
Qed.

Lemma run_calls_keep_instance calls s h :
  ffmpegRef s = Some h → ffmpegRef (run_calls calls s) = Some h.
Proof.
  revert s. induction calls as [|c calls IH]; intros s Hs; [done|].
  cbn. apply IH. destruct c; cbn.
  - destruct (load_cases s) as [(h' & Href & ->) | (Href & _)];
      [exact Hs|congruence].
  - destruct (convert_cases blob s) as (pre & ps & _ & _ & _ & Hstep & _).
    unfold engine_step in Hstep. rewrite Hs in Hstep. by destruct Hstep.
Qed.


End ConverterClaims.

(** ** The hook on the copying engine *)

Section ConverterRuns.
Import Converter.

Lemma copy_engine_fractional :
  @fractional_progress CopyEngine.World positive CopyEngine.api.
Proof.
  intros h w. cbn. unfold CopyEngine.copy_exec. cbn.
  destruct (CopyEngine.files w !! (h, "input.webm")) as [[|b data]|]; cbn.
  - split; constructor.
  - split; repeat constructor; discriminate.
  - split; constructor.
Qed.



Lemma convert_empty_clip_left_to_engine_witness :
  blob_size empty_clip = 0 ∧
  let r := convertWebMToMp4 empty_clip converter_up in
  fetchFile empty_clip = [] ∧
  isConverting r.2 = false ∧
  match r.1 with
  | Thrown e => thrown_by_engine e
  | Returned mp4 =>
      ∃ h w w' data,
        ffmpeg_readFile h "output.mp4" w = (Returned data, w') ∧
        mp4 = mkBlob data "video/mp4"
  end.
Proof.
  split; [reflexivity|].
  apply (convert_empty_clip_left_to_engine empty_clip converter_up).
  reflexivity.
Defined.

(** C3 as the specification states it fails: the hook neither checks the
    size of the clip nor the exit code of [exec], and it leaves
    "output.mp4" in the engine's file system.  After one conversion of a
    two-byte clip, the conversion of the clip of byte length 0 is rejected
    by the engine (exit code 1, nothing written), and yet the call returns
    a blob: the output of the conversion before. *)
Lemma convert_empty_clip_counterexample :
  let after_one := (convertWebMToMp4 chunk_a converter_up).2 in
  blob_size empty_clip = 0 ∧
  (ffmpeg_exec 1%positive transcode_args
     (world (engine (ffmpeg_writeFile 1%positive "input.webm" [])
               after_one).2)).2.1 = Returned 1 ∧
  (convertWebMToMp4 empty_clip after_one).1
  = Returned (mkBlob [Byte.x1a; Byte.x45] "video/mp4") ∧
  is_thrown (convertWebMToMp4 empty_clip after_one).1 = false.
Proof. repeat split; by vm_compute. Qed.


End ConverterRuns.

(* ================================================================== *)
(** * Properties of the page *)
(* ================================================================== *)

Section PageClaims.
Import Page.
Context {W H : Type} `{!Converter.FFmpegApi W H}.
Implicit Types (s : State W H).

Lemma downloads_snoc us u :
  downloads (us ++ [u]) =
  downloads us ++ match u with Download b f => [(b, f)] | _ => [] end.
Proof. unfold downloads. rewrite omap_app. by destruct u. Qed.

(** C5: when the page holds a recorded clip and its conversion to MP4
    throws, [handleDownload] does not throw: it logs the error, toasts,
    and hands the recorded blob itself to [downloadRecording] under a
    ".webm" name; this is the only download of the call. *)
Theorem handleDownload_falls_back_to_webm now s blob e c :
  videoBlob s = Some blob →
  Converter.convertWebMToMp4 blob (converter s) = (Thrown e, c) →
  let r := handleDownload now s in
  r.1 = Returned tt ∧
  downloads (ui r.2) =
    downloads (ui s) ++
    [(blob, "typewriter-animation-" +:+ timestamp now +:+ ".webm")] ∧
  videoBlob r.2 = Some blob.
Proof.
  intros Hblob Hconv r. subst r.
  unfold handleDownload, downloadRecording, show, in_converter.
  eff_unfold. cbn beta iota. rewrite Hblob. cbn beta iota.
  cbn [converter]. rewrite Hconv.
  cbn [fst snd ui videoBlob text converter].
  rewrite !downloads_snoc, !app_nil_r. done.
Qed.

End PageClaims.

Lemma handleDownload_falls_back_to_webm_witness :
  let r := Page.handleDownload "2024-05-06T07:08:09.010Z"
             (page_with_clip CopyEngine.down) in
  r.1 = Returned tt ∧
  Page.downloads (Page.ui r.2) =
    Page.downloads (Page.ui (page_with_clip CopyEngine.down)) ++
    [(chunk_a, "typewriter-animation-" +:+
               Page.timestamp "2024-05-06T07:08:09.010Z" +:+ ".webm")] ∧
  Page.videoBlob r.2 = Some chunk_a.
Proof.
  eapply (handleDownload_falls_back_to_webm _ (page_with_clip CopyEngine.down)).
  - reflexivity.
  - vm_compute. reflexivity.
Defined.

Section MessageField.
Import Page.
Context {W H : Type} `{!Converter.FFmpegApi W H}.
Implicit Types (s : State W H).

Lemma length_string_of_list_ascii l :
  String.length (String.string_of_list_ascii l) = length l.
Proof. induction l as [|c l IH]; [done|]. cbn. by rewrite IH. Qed.

(** [slice(0, n)] with [n] not negative keeps the first [n] elements. *)
Lemma slice_prefix {A} (n : Z) (l : list A) :
  0 ≤ n → Js.slice 0 n l = take (Z.to_nat n) l.
Proof.
  intros Hn. unfold Js.slice, Js.clamp_index.
  replace (0 <? 0) with false by done.
  replace (n <? 0) with false by (symmetry; apply Z.ltb_ge; lia).
  rewrite (Z.min_l 0) by lia. change (Z.to_nat 0) with 0%nat.
  rewrite drop_0, Z.sub_0_r.
  destruct (decide (n ≤ Z.of_nat (length l))) as [Hle|Hgt].
  - rewrite Z.min_l, Z.max_l by lia. done.
  - rewrite Z.min_r, Z.max_l, Nat2Z.id by lia.
    rewrite !take_ge by lia. done.
Qed.

Lemma onChange_text v s :
  String.list_ascii_of_string (text (onChange v s))
  = take 200 (String.list_ascii_of_string v).
Proof.
  unfold onChange, setText, Js.string_slice; cbn [text].
  rewrite String.list_ascii_of_string_of_list_ascii.
  by rewrite slice_prefix.
Qed.

Lemma onChange_length v s :
  Z.of_nat (String.length (text (onChange v s))) ≤ maxChars.
Proof.
  rewrite <- (String.string_of_list_ascii_of_string (text (onChange v s))).
  rewrite length_string_of_list_ascii, onChange_text, length_take.
  unfold maxChars. lia.
Qed.

(** ** Words and their lengths *)

Lemma string_length_list (t : string) :
  String.length t = length (String.list_ascii_of_string t).
Proof. induction t as [|c t IH]; [done|]. cbn. by rewrite IH. Qed.

Lemma list_ascii_of_string_app (t u : string) :
  String.list_ascii_of_string (t +:+ u)
  = String.list_ascii_of_string t ++ String.list_ascii_of_string u.
Proof.
  induction t as [|c t IH]; [done|].
  change (String c t +:+ u) with (String c (t +:+ u)).
  cbn. by rewrite IH.
Qed.

Lemma length_slice {A} (a b : Z) (l : list A) :
  (length (Js.slice a b l) ≤ length l)%nat.
Proof. unfold Js.slice. rewrite length_take, length_drop. lia. Qed.

Lemma length_drop_while {A} (p : A → bool) (l : list A) :
  (length (Js.drop_while p l) ≤ length l)%nat.
Proof.
  induction l as [|x l IH]; [done|]. cbn. destruct (p x); cbn; lia.
Qed.

Lemma length_trim l : (length (Js.trim l) ≤ length l)%nat.
Proof.
  unfold Js.trim. rewrite length_reverse.
  etransitivity; [apply length_drop_while|]. rewrite length_reverse.
  apply length_drop_while.
Qed.

(** Joining with a one-unit separator: every word brings its length and,
    but for the last one, one more unit. *)
Lemma length_join {A} (x : A) (ws : list (list A)) :
  length (Js.join [x] ws) = pred (sum_list_with (λ w, S (length w)) ws).
Proof.
  induction ws as [|w ws IH]; [done|].
  cbn [Js.join sum_list_with]. destruct ws as [|w' ws]; [cbn; lia|].
  rewrite !length_app, IH. cbn. lia.
Qed.

(** The words cut out of [l], each counted with one separator, fit in
    [l] and one more unit: a separator follows every word but the last. *)
Lemma split_runs_weight {A} (sep : A → bool) piece in_run (l : list A) :
  (sum_list_with (λ w, S (length w))
     (filter (λ w, w ≠ []) (Js.split_runs sep piece in_run l))
   ≤ length piece + length l + 1)%nat.
Proof.
  revert piece in_run. induction l as [|c l IH]; intros piece in_run.
  - cbn [Js.split_runs]. rewrite filter_cons, filter_nil.
    destruct (decide (reverse piece ≠ [])); cbn;
      rewrite ?length_reverse; lia.
  - cbn [Js.split_runs length]. destruct (sep c).
    + destruct in_run.
      * specialize (IH [] true). cbn in IH. lia.
      * rewrite filter_cons. specialize (IH [] true). cbn in IH.
        destruct (decide (reverse piece ≠ [])); cbn;
          rewrite ?length_reverse; lia.
    + specialize (IH (c :: piece) false). cbn in IH. lia.
Qed.

Lemma words_of_weight input :
  (sum_list_with (λ w, S (length w)) (words_of input)
   ≤ String.length input + 1)%nat.
Proof.
  unfold words_of. etransitivity; [apply split_runs_weight|].
  pose proof (length_trim (String.list_ascii_of_string input)).
  rewrite string_length_list. cbn. lia.
Qed.

Lemma weight_at_least_length {A} (ws : list (list A)) :
  (length ws ≤ sum_list_with (λ w, S (length w)) ws)%nat.
Proof. induction ws as [|w ws IH]; cbn; lia. Qed.

Lemma slice_last_four {A} (ws : list A) :
  (4 ≤ length ws)%nat →
  Js.slice 0 (-4) ws = take (length ws - 4) ws ∧
  Js.slice_from (-4) ws = drop (length ws - 4) ws.
Proof.
  intros Hlen. unfold Js.slice_from, Js.slice, Js.clamp_index.
  replace (0 <? 0) with false by done.
  replace (-4 <? 0) with true by done.
  replace (Z.of_nat (length ws) <? 0) with false
    by (symmetry; apply Z.ltb_ge; lia).
  rewrite (Z.min_l 0), Z.min_id, !(Z.max_l _ 0) by lia.
  change (Z.to_nat 0) with 0%nat. rewrite drop_0, Z.sub_0_r.
  replace (Z.to_nat (Z.of_nat (length ws) + -4)) with (length ws - 4)%nat by lia.
  split; [done|]. apply take_ge. rewrite length_drop. lia.
Qed.

(** The two parts of a message and what is on display at the end of the
    reveal are no longer than the message. *)
Lemma getTextParts_lengths input :
  (String.length (staticText (getTextParts input)) ≤ String.length input)%nat ∧
  (String.length (animatedText (getTextParts input)) ≤ String.length input)%nat ∧
  (String.length (revealed (getTextParts input)) ≤ String.length input)%nat.
Proof.
  unfold getTextParts.
  pose proof (words_of_weight input) as Hweight.
  destruct (Z.leb_spec (Z.of_nat (length (words_of input))) 6) as [Hfew|Hmany].
  { unfold revealed; cbn [staticText animatedText].
    rewrite bool_decide_eq_true_2 by done.
    rewrite !string_length_list, list_ascii_of_string_app. cbn.
    repeat split; lia. }
  destruct (slice_last_four (words_of input)) as [Hstatic Hanimated]; [lia|].
  rewrite Hstatic, Hanimated.
  set (ws := words_of input) in *. set (n := (length ws - 4)%nat).
  pose proof (weight_at_least_length (take n ws)) as Hfront.
  pose proof (weight_at_least_length (drop n ws)) as Hback.
  rewrite length_take in Hfront. rewrite length_drop in Hback.
  assert (Hsum : sum_list_with (λ w, S (length w)) ws
                 = (sum_list_with (λ w, S (length w)) (take n ws)
                    + sum_list_with (λ w, S (length w)) (drop n ws))%nat)
    by (by rewrite <- sum_list_with_app, take_drop).
  unfold revealed. cbn [staticText animatedText].
  repeat case_bool_decide;
    rewrite ?string_length_list, ?list_ascii_of_string_app,
            ?String.list_ascii_of_string_of_list_ascii, ?length_app,
            ?length_join in *;
    cbn [String.list_ascii_of_string length] in *;
    repeat split; lia.
Qed.

(** The frames of the earlier revision's reveal are prefixes of the
    text. *)
Lemma reveal_length t ticks :
  (String.length (reveal t ticks).2 ≤ String.length t)%nat.
Proof.
  induction ticks as [|ticks IH]; [cbn; lia|].
  unfold reveal in *. rewrite Nat.iter_succ.
  set (st := Nat.iter ticks (reveal_tick t) (0, EmptyString)) in *.
  unfold reveal_tick.
  destruct (st.1 <? Z.of_nat (String.length t))%Z; [|exact IH]. cbn [snd].
  unfold Js.string_slice.
  rewrite length_string_of_list_ascii, string_length_list.
  apply length_slice.
Qed.


End MessageField.


(* ================================================================== *)
(** * Further properties of useAnimationRecorder *)
(* ================================================================== *)

Section RecorderRuns.
Import Recorder RecorderRun.

Lemma startRecording_of_three v :
  startRecording_of v = TextDraw.startRecording ∨
  startRecording_of v = BackgroundImage.startRecording ∨
  startRecording_of v = Html2Canvas.startRecording.
Proof. destruct v; auto. Qed.

(** A [startRecording] whose setup went through is [armed]. *)
Lemma startRecording_all_well_armed start s :
  start = TextDraw.startRecording ∨
  start = BackgroundImage.startRecording ∨
  start = Html2Canvas.startRecording →
  start all_well s = (Returned tt, armed s).
Proof.
  intros Hstart. rewrite startRecording_all_well by done.
  by rewrite start_encoder_supported.
Qed.

(** X3: when the canvas has no 2d context, the first two revisions return
    at once and leave every part of the state as it was, with no log; the
    html2canvas revision throws inside its [try], so it logs, resets
    [isRecording] and toasts.  No revision starts a timer or creates a
    recorder. *)
Theorem startRecording_without_context env s :
  ctx_available env = false →
  TextDraw.startRecording env s = (Returned tt, s) ∧
  BackgroundImage.startRecording env s = (Returned tt, s) ∧
  Html2Canvas.startRecording env s = (Returned tt, logged_and_toasted s).
Proof.
  intros Hctx.
  unfold TextDraw.startRecording, BackgroundImage.startRecording,
         Html2Canvas.startRecording.
  rewrite Hctx. repeat split.
Qed.

Lemma startRecording_without_context_witness :
  let env := mkStartEnv false true true true in
  TextDraw.startRecording env recording_one_chunk
    = (Returned tt, recording_one_chunk) ∧
  BackgroundImage.startRecording env recording_one_chunk
    = (Returned tt, recording_one_chunk) ∧
  Html2Canvas.startRecording env recording_one_chunk
    = (Returned tt, logged_and_toasted recording_one_chunk).
Proof. apply startRecording_without_context. reflexivity. Defined.

(** X4: when the browser refuses the recorder ([new MediaRecorder] throws),
    the sampling timer has already been started and no revision clears it:
    the call returns normally, the timer keeps ticking, and there is no
    session (no recorder stored, the chunk buffer as it was).  The first
    two revisions log; the html2canvas revision also resets [isRecording]
    and toasts. *)
Theorem startRecording_unsupported_leaves_timer env s :
  ctx_available env = true →
  background_loads env = true →
  snapshot_renders env = true →
  recorder_supported env = false →
  TextDraw.startRecording env s = (Returned tt, logged (ticking s)) ∧
  BackgroundImage.startRecording env s = (Returned tt, logged (ticking s)) ∧
  Html2Canvas.startRecording env s
    = (Returned tt, logged_and_toasted (ticking s)) ∧
  next_handle s ∈ intervals (ticking s) ∧
  mediaRecorderRef (ticking s) = mediaRecorderRef s ∧
  recorders (ticking s) = recorders s ∧
  chunksRef (ticking s) = chunksRef s.
Proof.
  intros Hctx Hbg Hsnap Hsup.
  unfold TextDraw.startRecording, BackgroundImage.startRecording,
         Html2Canvas.startRecording, try_catch.
  rewrite Hctx, Hbg, Hsnap. cbn [negb]. eff_unfold.
  rewrite !start_encoder_unsupported by done.
  repeat split; cbn; set_solver.
Qed.

Lemma startRecording_unsupported_leaves_timer_witness :
  let env := mkStartEnv true true true false in
  TextDraw.startRecording env initial = (Returned tt, logged (ticking initial)) ∧
  intervals (TextDraw.startRecording env initial).2 = {[1%positive]} ∧
  isRecording (TextDraw.startRecording env initial).2 = false ∧
  stopRecording (TextDraw.startRecording env initial).2
    = (ResolvedNull, (TextDraw.startRecording env initial).2).
Proof.
  destruct (startRecording_unsupported_leaves_timer
              (mkStartEnv true true true false) initial
              eq_refl eq_refl eq_refl eq_refl) as (Htext & _).
  cbv zeta. rewrite Htext. repeat split; cbn; set_solver.
Defined.

(** ** The states the hook can reach *)

(** Every way out of [startRecording]: the session is [armed], or nothing
    of the session has changed and at most a timer has been left running. *)
Lemma startRecording_of_shapes v env s :
  let s' := (startRecording_of v env s).2 in
  s' = armed s ∨
  ∃ flag timers logs shown next,
    s' = mkState flag (mediaRecorderRef s) (chunksRef s) (recorders s)
                 timers logs shown next ∧
    (flag = isRecording s ∨ flag = false) ∧
    ((timers = intervals s ∧ next = next_handle s) ∨
     (timers = {[next_handle s]} ∪ intervals s ∧
      next = Pos.succ (next_handle s))).
Proof.
  destruct env as [ctx bg snap sup].
  destruct v, ctx, bg, snap, sup;
    unfold startRecording_of, TextDraw.startRecording,
           BackgroundImage.startRecording, Html2Canvas.startRecording,
           try_catch;
    cbn [ctx_available background_loads snapshot_renders negb]; eff_unfold;
    rewrite ?start_encoder_supported, ?start_encoder_unsupported by done;
    cbn [fst snd];
    first [ by left
          | right; destruct s; cbn; do 5 eexists;
            split; [reflexivity|]; split; [by (left + right)|];
            by (left + right) ].
Qed.

Lemma well_formed_initial : well_formed initial.
Proof.
  repeat split; cbn; try done; try set_solver.
  intros r [m Hm]. by rewrite lookup_empty in Hm.
Qed.

Lemma well_formed_start v env s :
  well_formed s → well_formed (startRecording_of v env s).2.
Proof.
  intros ((Htimers & Hrecs) & Hlisten & Href & Hflag & Hchunks).
  destruct (startRecording_of_shapes v env s)
    as [-> | (flag & timers & logs & shown & next & -> & Hf & Ht)];
    refine (conj (conj _ _) (conj _ (conj _ (conj _ _))));
    unfold armed, recorders_listen;
    cbn [isRecording mediaRecorderRef chunksRef recorders intervals
         next_handle].
  - intros t [->%elem_of_singleton | Hin]%elem_of_union; [lia|].
    specialize (Htimers t Hin). lia.
  - intros r [m Hm].
    destruct (decide (r = Pos.succ (next_handle s))) as [->|Hne]; [lia|].
    rewrite lookup_insert_ne in Hm by done.
    specialize (Hrecs r (mk_is_Some _ _ Hm)). lia.
  - intros r m Hm.
    destruct (decide (r = Pos.succ (next_handle s))) as [->|Hne].
    + rewrite lookup_insert_eq in Hm. by injection Hm as <-.
    + rewrite lookup_insert_ne in Hm by done. by eapply Hlisten.
  - intros r [= <-]. rewrite lookup_insert_eq. by eexists.
  - by eexists.
  - constructor.
  - intros t Hin.
    destruct Ht as [[-> ->] | [-> ->]].
    + by apply Htimers.
    + apply elem_of_union in Hin as [->%elem_of_singleton | Hin]; [lia|].
      specialize (Htimers t Hin). lia.
  - intros r Hr. specialize (Hrecs r Hr).
    destruct Ht as [[_ ->] | [_ ->]]; lia.
  - done.
  - done.
  - destruct Hf as [-> | ->]; [done|discriminate].
  - done.
Qed.

Lemma well_formed_data r data s :
  well_formed s → well_formed (fire_dataavailable r data s).
Proof.
  intros (Hfresh & Hlisten & Href & Hflag & Hchunks).
  unfold fire_dataavailable.
  destruct (recorders s !! r) as [m|]; [|done].
  destruct (ondataavailable m) as [[]|]; [|done].
  destruct (Z.gtb_spec (blob_size data) 0); [|done].
  refine (conj Hfresh (conj Hlisten (conj Href (conj Hflag _)))); cbn.
  apply Forall_app. split; [done|]. constructor; [lia|constructor].
Qed.

(** Rewriting a recorder in place keeps the heap's domain and the data
    handlers, as long as the rewrite keeps the handler. *)
Lemma well_formed_update r f s :
  (∀ m, ondataavailable (f m) = ondataavailable m) →
  well_formed s → well_formed (update_recorder r f s).
Proof.
  intros Hf ((Htimers & Hrecs) & Hlisten & Href & Hflag & Hchunks).
  refine (conj (conj Htimers _) (conj _ (conj _ (conj Hflag Hchunks))));
    unfold recorders_listen, update_recorder;
    cbn [isRecording mediaRecorderRef chunksRef recorders intervals
         next_handle set_recorders].
  - intros r0 Hr0. apply Hrecs.
    by rewrite lookup_alter_is_Some in Hr0.
  - intros r0 m Hm. destruct (decide (r = r0)) as [<-|Hne].
    + rewrite lookup_alter_eq in Hm.
      destruct (recorders s !! r) as [m0|] eqn:Hm0; [|done].
      cbn in Hm. injection Hm as <-. rewrite Hf. by eapply Hlisten.
    + rewrite lookup_alter_ne in Hm by done. by eapply Hlisten.
  - intros r0 Hr0. rewrite lookup_alter_is_Some. by apply Href.
Qed.

Lemma well_formed_stop s : well_formed s → well_formed (stopRecording s).2.
Proof.
  intros Hwf. unfold stopRecording.
  destruct (mediaRecorderRef s) as [r|]; [|done].
  destruct (isRecording s); cbn [negb snd]; [|done].
  by do 2 (apply well_formed_update; [done|]).
Qed.

Lemma well_formed_clearInterval t s :
  well_formed s → well_formed (clearInterval t s).
Proof.
  intros ((Htimers & Hrecs) & Hlisten & Href & Hflag & Hchunks).
  refine (conj (conj _ Hrecs) (conj Hlisten (conj Href (conj Hflag Hchunks)))).
  cbn. intros t0 [Hin _]%elem_of_difference. by apply Htimers.
Qed.

Lemma well_formed_fire_stop r s :
  well_formed s → well_formed (fire_stop r s).2.
Proof.
  intros Hwf. unfold fire_stop.
  destruct (recorders s !! r) as [m|]; [|done].
  destruct (onstop m) as [[t|]|]; cbn [snd]; [|..|done].
  - by apply well_formed_clearInterval.
  - assert (Hidle : well_formed (set_isRecording false (set_chunksRef [] s))).
    { destruct Hwf as (Hfresh & Hlisten & Href & Hflag & Hchunks).
      refine (conj Hfresh (conj Hlisten (conj Href (conj _ _)))); cbn;
        [discriminate|constructor]. }
    cbn [mediaRecorderRef set_isRecording set_chunksRef].
    destruct (mediaRecorderRef s); cbn [snd]; [|done].
    destruct (current_frameInterval _); [|done].
    by apply well_formed_clearInterval.
Qed.

(** X1: whatever the page and the browser do, in whatever order (calls of
    [startRecording] in any environment, calls of [stopRecording], data
    and stop events of any recorder), the hook's state stays well formed:
    the chunk buffer never holds an empty chunk, [mediaRecorderRef] always
    points to a recorder that exists, and [isRecording] is only set while a
    recorder is stored, so that a [stopRecording] made while [isRecording]
    is set never resolves with [null] at once. *)
Theorem recorder_stays_well_formed v events :
  let s := run v events initial in
  well_formed s ∧
  (isRecording s = true → ∃ r, (stopRecording s).1 = PendingOn r).
Proof.
  intros s.
  assert (Hwf : well_formed s).
  { subst s. induction events as [|e events IH] using rev_ind.
    - apply well_formed_initial.
    - unfold run in *. rewrite foldl_snoc.
      destruct e; cbn [step].
      + by apply well_formed_start.
      + by apply well_formed_data.
      + by apply well_formed_stop.
      + by apply well_formed_fire_stop. }
  split; [exact Hwf|].
  intros Hrec. destruct Hwf as (_ & _ & _ & Hflag & _).
  destruct (Hflag Hrec) as [r Hr]. exists r.
  unfold stopRecording. by rewrite Hr, Hrec.
Qed.

Lemma recorder_stays_well_formed_witness :
  let s := run ByTextDraw [CallStart all_well; FireData 2 chunk_a] initial in
  isRecording s = true ∧ ∃ r, (stopRecording s).1 = PendingOn r.
Proof.
  destruct (recorder_stays_well_formed ByTextDraw
              [CallStart all_well; FireData 2 chunk_a]) as [_ Hstop].
  split; [by vm_compute|]. apply Hstop. by vm_compute.
Defined.

(** ** Timers *)

Lemma handles_fresh_armed s : handles_fresh s → handles_fresh (armed s).
Proof.
  intros [Htimers Hrecs]. split; unfold armed;
    cbn [recorders intervals next_handle].
  - intros t [->%elem_of_singleton | Hin]%elem_of_union; [lia|].
    specialize (Htimers t Hin). lia.
  - intros r [m Hm].
    destruct (decide (r = Pos.succ (next_handle s))) as [->|Hne]; [lia|].
    rewrite lookup_insert_ne in Hm by done.
    specialize (Hrecs r (mk_is_Some _ _ Hm)). lia.
Qed.

Lemma session_intervals start chunks flushed s :
  start = TextDraw.startRecording ∨
  start = BackgroundImage.startRecording ∨
  start = Html2Canvas.startRecording →
  intervals (session (start all_well) chunks flushed s).2
  = ({[next_handle s]} ∪ intervals s) ∖ {[next_handle s]}.
Proof.
  intros Hstart. unfold session.
  rewrite startRecording_all_well_armed by done.
  cbn [snd]. unfold armed at 1. cbn [mediaRecorderRef].
  set (t := next_handle s). set (r := Pos.succ t).
  destruct (armed_session_payload r t chunks flushed (armed s))
    as (Hp & _ & _ & _ & Htimers).
  { reflexivity. }
  { reflexivity. }
  { unfold armed; cbn. apply lookup_insert_eq. }
  cbn zeta in Hp, Htimers.
  destruct (stopRecording (deliver r chunks (armed s))) as [p s3].
  cbn [fst snd] in *. subst p. exact Htimers.
Qed.

(** When handles are fresh, the timer a session starts is a new one, so
    cancelling it leaves the timers that ran before. *)
Lemma session_restores_timers start chunks flushed s :
  start = TextDraw.startRecording ∨
  start = BackgroundImage.startRecording ∨
  start = Html2Canvas.startRecording →
  handles_fresh s →
  intervals (session (start all_well) chunks flushed s).2 = intervals s.
Proof.
  intros Hstart [Htimers _]. rewrite session_intervals by done.
  assert (Hnew : next_handle s ∉ intervals s).
  { intros Hin. specialize (Htimers _ Hin). lia. }
  apply set_eq. intros t.
  rewrite elem_of_difference, elem_of_union, elem_of_singleton.
  split; [intros [[->|Hin] Hne]; done|].
  intros Hin. split; [by right|]. by intros ->.
Qed.

(** A complete session leaves the hook idle. *)
Lemma session_ends_idle start chunks flushed s :
  start = TextDraw.startRecording ∨
  start = BackgroundImage.startRecording ∨
  start = Html2Canvas.startRecording →
  isRecording (session (start all_well) chunks flushed s).2 = false.
Proof.
  intros Hstart. unfold session.
  rewrite startRecording_all_well_armed by done.
  cbn [snd]. unfold armed at 1. cbn [mediaRecorderRef].
  set (t := next_handle s). set (r := Pos.succ t).
  destruct (armed_session_payload r t chunks flushed (armed s))
    as (Hp & _ & _ & Hflag & _).
  { reflexivity. }
  { reflexivity. }
  { unfold armed; cbn. apply lookup_insert_eq. }
  cbn zeta in Hp, Hflag.
  destruct (stopRecording (deliver r chunks (armed s))) as [p s3].
  cbn [fst snd] in *. subst p. exact Hflag.
Qed.

(** X2: a complete session (start, chunks, stop, the recorder's [stop]
    event) cancels the sampling timer it started and no other: when
    handles are fresh, the timers running afterwards are exactly those
    that ran before. *)
Theorem session_cancels_its_timer start chunks flushed s :
  start = TextDraw.startRecording ∨
  start = BackgroundImage.startRecording ∨
  start = Html2Canvas.startRecording →
  handles_fresh s →
  intervals (session (start all_well) chunks flushed s).2 = intervals s.
Proof. apply session_restores_timers. Qed.

Lemma session_cancels_its_timer_witness :
  intervals (session (Html2Canvas.startRecording all_well)
               [chunk_a] [chunk_b] initial).2 = intervals initial.
Proof.
  apply session_cancels_its_timer; [auto|].
  split; cbn; [set_solver|].
  intros r [m Hm]. by rewrite lookup_empty in Hm.
Defined.

(** X5: after two calls of [startRecording] in a row, the timer of the
    first call is never cancelled: a complete second session later it is
    still running, while the hook is idle and [stopRecording] has nothing
    left to stop. *)
Theorem second_start_orphans_first_timer start chunks flushed s :
  start = TextDraw.startRecording ∨
  start = BackgroundImage.startRecording ∨
  start = Html2Canvas.startRecording →
  handles_fresh s →
  let started := (start all_well s).2 in
  let over := (session (start all_well) chunks flushed started).2 in
  intervals over = {[next_handle s]} ∪ intervals s ∧
  isRecording over = false ∧
  stopRecording over = (ResolvedNull, over).
Proof.
  intros Hstart Hfresh started over. subst over started.
  rewrite (startRecording_all_well_armed start s) by done. cbn [snd].
  pose proof (session_ends_idle start chunks flushed (armed s) Hstart)
    as Hflag.
  refine (conj _ (conj Hflag _)).
  - rewrite session_restores_timers; [done|done|].
    by apply handles_fresh_armed.
  - unfold stopRecording. rewrite Hflag. by destruct (mediaRecorderRef _).
Qed.

Lemma second_start_orphans_first_timer_witness :
  let started := (TextDraw.startRecording all_well initial).2 in
  let over := (session (TextDraw.startRecording all_well)
                 [chunk_a] [] started).2 in
  intervals over = {[1%positive]} ∪ intervals initial ∧
  isRecording over = false ∧
  stopRecording over = (ResolvedNull, over).
Proof.
  apply (second_start_orphans_first_timer TextDraw.startRecording
           [chunk_a] [] initial); [auto|].
  split; cbn; [set_solver|].
  intros r [m Hm]. by rewrite lookup_empty in Hm.
Defined.

(** ** One buffer for all recorders *)

(** Events of recorders that exist and listen land in the one buffer, in
    the order they fire, whichever recorder fired them. *)
Lemma deliver_all_appends events s :
  Forall (λ e, ∃ m, recorders s !! e.1 = Some m ∧
                    ondataavailable m = Some PushNonEmptyChunk) events →
  deliver_all events s =
    set_chunksRef
      (chunksRef s ++ filter (λ b, 0 < blob_size b) (events.*2)) s.
Proof.
  intros Hlisten. revert s Hlisten.
  induction events as [|[r data] events IH]; intros s Hlisten.
  - cbn. by rewrite app_nil_r, set_chunksRef_same.
  - apply Forall_cons in Hlisten as [(m & Hm & Hh) Hlisten]. cbn in Hm.
    change (deliver_all ((r, data) :: events) s)
      with (deliver_all events (fire_dataavailable r data s)).
    rewrite (fire_dataavailable_handler r m) by done.
    rewrite IH by done.
    cbn [chunksRef set_chunksRef fmap list_fmap snd].
    rewrite <- app_assoc, <- filter_app. reflexivity.
Qed.

(** X6: the chunk buffer belongs to the hook, not to a session.  After a
    second [startRecording], whatever the first recorder still delivers is
    appended to the buffer like the chunks of the second, in the order of
    arrival, and the blob [stopRecording] resolves with holds them all. *)
Theorem first_recorder_feeds_second_session start events s :
  start = TextDraw.startRecording ∨
  start = BackgroundImage.startRecording ∨
  start = Html2Canvas.startRecording →
  let first := Pos.succ (next_handle s) in
  let started := (start all_well s).2 in
  let second := Pos.succ (next_handle started) in
  let restarted := (start all_well started).2 in
  Forall (λ e, e.1 = first ∨ e.1 = second) events →
  let fed := deliver_all events restarted in
  (stopRecording fed).1 = PendingOn second ∧
  (fire_stop second (stopRecording fed).2).1 =
    Some (mkBlob (concat (map blob_data
                            (filter (λ b, 0 < blob_size b) (events.*2))))
                 "video/webm").
Proof.
  intros Hstart. cbv zeta.
  rewrite (startRecording_all_well_armed start s) by done. cbn [snd].
  rewrite (startRecording_all_well_armed start (armed s)) by done. cbn [snd].
  intros Hfrom.
  set (first := Pos.succ (next_handle s)) in *.
  set (second := Pos.succ (next_handle (armed s))) in *.
  assert (Hboth : ∀ r, r = first ∨ r = second →
                       ∃ t, recorders (armed (armed s)) !! r
                            = Some (armed_recorder t)).
  { intros r [-> | ->]; subst first second; unfold armed;
      cbn [recorders next_handle].
    - rewrite lookup_insert_ne by lia. rewrite lookup_insert_eq. eauto.
    - rewrite lookup_insert_eq. eauto. }
  rewrite deliver_all_appends; cycle 1.
  { eapply Forall_impl; [exact Hfrom|]. intros [r data] Hr.
    destruct (Hboth r Hr) as [t Ht]. cbn [fst]. rewrite Ht. by eexists. }
  set (kept := filter _ _).
  destruct (armed_session_payload second (next_handle (armed s)) [] []
              (set_chunksRef (chunksRef (armed (armed s)) ++ kept)
                 (armed (armed s)))) as (Hp & Hblob & _).
  { reflexivity. }
  { reflexivity. }
  { subst second. unfold armed; cbn. apply lookup_insert_eq. }
  cbv zeta in Hp, Hblob. unfold deliver in Hp, Hblob.
  cbn [foldl] in Hp, Hblob. split; [exact Hp|].
  rewrite Hblob. cbn [chunksRef set_chunksRef armed app filter].
  rewrite filter_nil, app_nil_r. reflexivity.
Qed.

Lemma first_recorder_feeds_second_session_witness :
  let restarted :=
    (TextDraw.startRecording all_well
       (TextDraw.startRecording all_well initial).2).2 in
  let fed := deliver_all [(2%positive, chunk_a); (4%positive, chunk_b)]
               restarted in
  (stopRecording fed).1 = PendingOn 4%positive ∧
  (fire_stop 4%positive (stopRecording fed).2).1
  = Some (mkBlob [Byte.x1a; Byte.x45; Byte.xdf] "video/webm").
Proof.
  apply (first_recorder_feeds_second_session TextDraw.startRecording
           [(2%positive, chunk_a); (4%positive, chunk_b)] initial);
    [auto|].
  apply Forall_cons. split; [by left|].
  apply Forall_cons. split; [by right|]. constructor.
Defined.

End RecorderRuns.

(* ================================================================== *)
(** * Further properties of useMp4Converter *)
(* ================================================================== *)

Section ConverterSteps.
Import Converter.
Context {W H : Type} `{!FFmpegApi W H}.
Implicit Types (s : State W H) (h : H).

Local Arguments load : simpl never.
Local Arguments engine : simpl never.
Local Arguments exec : simpl never.

(** The listener, exactly: [progress] ends at the last percentage. *)
Lemma on_progress_all_last ps s :
  on_progress_all ps s =
    (Returned tt,
     mkState (ffmpegRef s) (isConverting s)
             (default (progress s) (last (map percent ps)))
             (history s ++ map (λ p, SetProgress (percent p)) ps)
             (world s)).
Proof.
  revert s. induction ps as [|p ps IH]; intros s.
  - cbn. rewrite app_nil_r. by destruct s.
  - cbn [on_progress_all]. unfold on_progress, setProgress.
    eff_unfold. cbn beta iota. rewrite IH.
    unfold record. cbn [ffmpegRef isConverting progress history world map].
    rewrite <- app_assoc. cbn [app]. f_equal. f_equal.
    fold (percent p). destruct ps as [|q ps]; [reflexivity|].
    cbn [map]. rewrite last_cons_cons.
    destruct (last (percent q :: map percent ps)) eqn:Hlast; [done|].
    by apply last_None in Hlast.
Qed.


(** X8: while the engine is not loaded, a conversion whose first fetch of
    the core fails throws that error and caches nothing: one instance has
    been created and dropped, [ffmpegRef] is still empty, so the next call
    starts over.  [isConverting] is cleared and the only progress
    reported is the 0 of the entry. *)
Theorem convert_fetch_failure_caches_nothing blob s h w0 e w1 :
  ffmpegRef s = None →
  new_FFmpeg (world s) = (h, w0) →
  toBlobURL (baseURL +:+ "ffmpeg-core.js") "text/javascript" w0
    = (Thrown e, w1) →
  convertWebMToMp4 blob s =
    (Thrown e,
     mkState None false 0
             (history s ++
              [SetIsConverting true; SetProgress 0; Created h;
               SetIsConverting false])
             w1).
Proof.
  intros Href Hnew Hfetch.
  unfold convertWebMToMp4, setIsConverting, setProgress, try_finally.
  eff_unfold. cbn beta iota. unfold record.
  cbn [ffmpegRef isConverting progress history world].
  rewrite transcode_unfold.
  unfold load. eff_unfold. cbn beta iota.
  cbn [ffmpegRef world]. rewrite Href. cbn beta iota. cbn [world].
  rewrite Hnew. cbn beta iota.
  rewrite engine_call. unfold record, set_world.
  cbn [ffmpegRef isConverting progress history world].
  rewrite Hfetch. cbn [fst snd ffmpegRef isConverting progress history world].
  rewrite <- !app_assoc. reflexivity.
Qed.

End ConverterSteps.


Lemma convert_fetch_failure_caches_nothing_witness :
  let unloaded : Converter.State CopyEngine.World positive :=
    Converter.initial CopyEngine.down in
  Converter.convertWebMToMp4 chunk_a unloaded =
    (Thrown (Js.mkError "Failed to fetch"),
     Converter.mkState None false 0
       (Converter.history unloaded ++
        [Converter.SetIsConverting true; Converter.SetProgress 0;
         Converter.Created 1%positive; Converter.SetIsConverting false])
       (CopyEngine.mkWorld false 2%positive ∅)).
Proof.
  apply (convert_fetch_failure_caches_nothing chunk_a
           (Converter.initial CopyEngine.down) 1%positive
           (CopyEngine.mkWorld false 2%positive ∅)); reflexivity.
Defined.

(* ================================================================== *)
(** * Further properties of the page *)
(* ================================================================== *)

Section PageDownloads.
Import Page.
Context {W H : Type} `{!Converter.FFmpegApi W H}.
Implicit Types (s : State W H).

(** X9: [handleDownload] never throws and hands at most one file to the
    browser.  Without a recorded clip it only shows the error toast and
    does not touch the converter.  With a clip it announces the conversion,
    showing the percentage the converter's [progress] stood at before the
    call, and runs the converter once; if the conversion returns, the
    one download is the converted blob under an ".mp4" name, followed by
    the success toast; if it throws, the error is logged and the one
    download is the recorded clip under a ".webm" name.  The message and the
    stored clip are left as they were. *)
Theorem handleDownload_one_file now s :
  let r := handleDownload now s in
  r.1 = Returned tt ∧
  text r.2 = text s ∧
  videoBlob r.2 = videoBlob s ∧
  match videoBlob s with
  | None =>
      converter r.2 = converter s ∧
      ui r.2 =
        ui s ++ [ToastError "No video available. Generate the animation first."]
  | Some blob =>
      let announce :=
        ToastInfo ("Converting to MP4... " +:+
                   pretty (Converter.progress (converter s)) +:+ "%") in
      let converted := Converter.convertWebMToMp4 blob (converter s) in
      converter r.2 = converted.2 ∧
      ui r.2 =
        ui s ++
        match converted.1 with
        | Returned mp4 =>
            [announce;
             Download mp4 ("typewriter-animation-" +:+ timestamp now +:+ ".mp4");
             ToastSuccess "Download ready!"]
        | Thrown error =>
            [announce;
             ConsoleError error;
             ToastError "MP4 conversion failed. Downloading WebM.";
             Download blob ("typewriter-animation-" +:+ timestamp now +:+ ".webm")]
        end
  end.
Proof.
  intros r. subst r.
  unfold handleDownload, downloadRecording, show, in_converter.
  eff_unfold. cbn beta iota.
  destruct (videoBlob s) as [blob|] eqn:Hblob; cbn beta iota.
  - cbn [converter text videoBlob ui].
    destruct (Converter.convertWebMToMp4 blob (converter s)) as [[mp4|e] c];
      cbn [fst snd converter text videoBlob ui];
      rewrite <- ?app_assoc; done.
  - cbn [fst snd converter text videoBlob ui]. done.
Qed.

End PageDownloads.

Section FileNames.
Import Page.

Lemma dash_colon_dot_safe c :
  Js.dash_colon_dot c ≠ ":"%char ∧ Js.dash_colon_dot c ≠ "."%char.
Proof.
  unfold Js.dash_colon_dot.
  destruct (bool_decide (c = ":"%char)) eqn:Hc, (bool_decide (c = "."%char)) eqn:Hd;
    cbn; try (split; discriminate).
  apply bool_decide_eq_false in Hc, Hd. done.
Qed.

Lemma replace_colon_dot_list t :
  String.list_ascii_of_string (Js.replace_colon_dot t)
  = map Js.dash_colon_dot (String.list_ascii_of_string t).
Proof. induction t as [|c t IH]; [done|]. cbn. by rewrite IH. Qed.

(** X10: the time stamp put into the file names has the length of the ISO
    string it is made from, holds no colon and no dot, and differs from the
    ISO string only where that has one: each of these is a dash.  So the
    stem "typewriter-animation-<stamp>" holds no colon and no dot, and the
    only dot of a file name is the one of its extension.  Stamping is
    idempotent. *)
Theorem timestamp_fits_file_name now :
  let stem := String.list_ascii_of_string
                ("typewriter-animation-" +:+ timestamp now) in
  String.length (timestamp now) = String.length now ∧
  (∀ c, c ∈ stem → c ≠ ":"%char ∧ c ≠ "."%char) ∧
  (∀ i c, String.list_ascii_of_string now !! i = Some c →
     String.list_ascii_of_string (timestamp now) !! i
     = Some (if bool_decide (c = ":"%char ∨ c = "."%char) then "-"%char else c)) ∧
  timestamp (timestamp now) = timestamp now.
Proof.
  intros stem. unfold timestamp. refine (conj _ (conj _ (conj _ _))).
  - rewrite !string_length_list, replace_colon_dot_list. apply length_map.
  - intros c. subst stem.
    rewrite list_ascii_of_string_app, replace_colon_dot_list.
    rewrite elem_of_app. intros [Hin | Hin].
    + cbn in Hin. set_unfold in Hin.
      split; intros ->; repeat destruct Hin as [Hin | Hin]; try discriminate; done.
    + apply list_elem_of_fmap in Hin as (c' & -> & _). apply dash_colon_dot_safe.
  - intros i c Hi. rewrite replace_colon_dot_list, list_lookup_fmap, Hi. cbn.
    f_equal. unfold Js.dash_colon_dot.
    destruct (decide (c = ":"%char)) as [->|Hc]; [done|].
    destruct (decide (c = "."%char)) as [->|Hd]; [done|].
    rewrite !bool_decide_eq_false_2; [done|tauto|done|done].
  - rewrite <- (String.string_of_list_ascii_of_string
                  (Js.replace_colon_dot (Js.replace_colon_dot now))).
    rewrite <- (String.string_of_list_ascii_of_string (Js.replace_colon_dot now)) at 2.
    f_equal. rewrite !replace_colon_dot_list, <- list_fmap_compose.
    apply list_fmap_ext. intros _ c _. cbn.
    destruct (dash_colon_dot_safe c) as [Hc Hd].
    unfold Js.dash_colon_dot at 1.
    by rewrite !bool_decide_eq_false_2.
Qed.

End FileNames.

(* ================================================================== *)
(** * The words of a message *)
(* ================================================================== *)

Section Words.
Import Page.

(** ** Splitting at runs of separators *)

Lemma split_runs_clean {A} (sep : A → bool) piece in_run (l : list A) :
  Forall (λ c, sep c = false) piece →
  Forall (Forall (λ c, sep c = false)) (Js.split_runs sep piece in_run l).
Proof.
  revert piece in_run. induction l as [|c l IH]; intros piece in_run Hpiece.
  - cbn. constructor; [|constructor]. by apply Forall_reverse.
  - cbn [Js.split_runs]. destruct (sep c) eqn:Hc.
    + destruct in_run; [by apply IH|].
      constructor; [by apply Forall_reverse | by apply IH].
    + apply IH. by constructor.
Qed.

(** Reading a unit that is no separator does not depend on [in_run]. *)
Lemma split_runs_unit {A} (sep : A → bool) piece in_run c (l : list A) :
  sep c = false →
  Js.split_runs sep piece in_run (c :: l)
  = Js.split_runs sep (c :: piece) false l.
Proof. intros Hc. cbn. by rewrite Hc. Qed.

Lemma split_runs_word {A} (sep : A → bool) piece (w l : list A) :
  Forall (λ c, sep c = false) w →
  Js.split_runs sep piece false (w ++ l)
  = Js.split_runs sep (reverse w ++ piece) false l.
Proof.
  revert piece. induction w as [|c w IH]; intros piece Hw; [done|].
  apply Forall_cons in Hw as [Hc Hw].
  cbn [app]. rewrite split_runs_unit by done. rewrite IH by done.
  by rewrite reverse_cons, <- app_assoc.
Qed.

Lemma split_runs_first_word {A} (sep : A → bool) in_run (w l : list A) :
  w ≠ [] → Forall (λ c, sep c = false) w →
  Js.split_runs sep [] in_run (w ++ l)
  = Js.split_runs sep (reverse w) false l.
Proof.
  intros Hne Hw. destruct w as [|c w]; [done|].
  apply Forall_cons in Hw as [Hc Hw].
  cbn [app]. rewrite split_runs_unit by done.
  rewrite split_runs_word by done. by rewrite reverse_cons.
Qed.

(** Words joined by one separator are split into the same words again. *)
Lemma split_runs_join {A} (sep : A → bool) (x : A) in_run (ws : list (list A)) :
  sep x = true → ws ≠ [] →
  Forall (λ w, w ≠ [] ∧ Forall (λ c, sep c = false) w) ws →
  Js.split_runs sep [] in_run (Js.join [x] ws) = ws.
Proof.
  intros Hx Hne Hws. revert in_run.
  induction ws as [|w ws IH]; intros in_run; [done|].
  apply Forall_cons in Hws as [[Hw Hclean] Hws].
  cbn [Js.join]. destruct ws as [|w' ws].
  - rewrite <- (app_nil_r w) at 1. rewrite split_runs_first_word by done.
    cbn. by rewrite reverse_involutive.
  - rewrite split_runs_first_word by done.
    cbn [app Js.split_runs]. rewrite Hx, reverse_involutive.
    f_equal. by apply IH.
Qed.

Lemma join_app {A} (sep : list A) (a b : list (list A)) :
  a ≠ [] → b ≠ [] →
  Js.join sep (a ++ b) = Js.join sep a ++ sep ++ Js.join sep b.
Proof.
  intros Ha Hb. induction a as [|w a IH]; [done|].
  destruct a as [|w' a].
  - cbn [app Js.join]. by destruct b.
  - change (Js.join sep ((w :: w' :: a) ++ b))
      with (w ++ sep ++ Js.join sep ((w' :: a) ++ b)).
    rewrite IH by done. cbn [Js.join]. by rewrite <- !app_assoc.
Qed.

Lemma filter_all {A} (P : A → Prop) `{!∀ x, Decision (P x)} (l : list A) :
  Forall P l → filter P l = l.
Proof.
  induction 1 as [|x l' Hx _ IH]; [done|].
  rewrite filter_cons, decide_True by done. by rewrite IH.
Qed.

(** ** Trimming *)

Lemma drop_while_keeps {A} (p : A → bool) (l : list A) :
  (∀ c, head l = Some c → p c = false) → Js.drop_while p l = l.
Proof.
  destruct l as [|c l]; [done|]. intros Hc. cbn. by rewrite (Hc c).
Qed.

Lemma drop_while_nil {A} (p : A → bool) (l : list A) :
  Js.drop_while p l = [] ↔ Forall (λ c, p c = true) l.
Proof.
  induction l as [|c l IH]; [by split; [constructor|]|].
  cbn. destruct (p c) eqn:Hc.
  - rewrite IH. split; [by constructor|]. by intros [_ ?]%Forall_cons.
  - split; [done|]. intros [? _]%Forall_cons. congruence.
Qed.

Lemma drop_while_head {A} (p : A → bool) (l : list A) c :
  head (Js.drop_while p l) = Some c → p c = false.
Proof.
  induction l as [|x l IH]; [done|]. cbn. destruct (p x) eqn:Hx; [done|].
  cbn. by intros [= <-].
Qed.

(** [trim] keeps a text that neither starts nor ends with white space. *)
Lemma trim_tight l :
  (∀ c, head l = Some c → Js.white_space c = false) →
  (∀ c, last l = Some c → Js.white_space c = false) →
  Js.trim l = l.
Proof.
  intros Hhead Hlast. unfold Js.trim.
  rewrite (drop_while_keeps _ l) by done.
  rewrite drop_while_keeps; [apply reverse_involutive|].
  intros c. rewrite head_reverse. apply Hlast.
Qed.

(** [trim] gives the empty text exactly on white space. *)
Lemma trim_nil l :
  Js.trim l = [] ↔ Forall (λ c, Js.white_space c = true) l.
Proof.
  unfold Js.trim. split.
  - intros Htrim. apply (f_equal reverse) in Htrim.
    rewrite reverse_involutive, reverse_nil in Htrim.
    apply drop_while_nil, Forall_reverse in Htrim.
    rewrite reverse_involutive in Htrim.
    destruct (Js.drop_while Js.white_space l) as [|c l'] eqn:Hdrop.
    + by apply drop_while_nil in Hdrop.
    + apply Forall_cons in Htrim as [Hc _].
      pose proof (drop_while_head Js.white_space l c) as Hfalse.
      rewrite Hdrop in Hfalse. specialize (Hfalse eq_refl). congruence.
  - intros Hall. apply drop_while_nil in Hall. by rewrite Hall.
Qed.

Lemma head_join {A} (sep : list A) (ws : list (list A)) c :
  Forall (λ w, w ≠ []) ws →
  head (Js.join sep ws) = Some c → ∃ w, w ∈ ws ∧ head w = Some c.
Proof.
  intros Hws. destruct ws as [|w ws]; [done|].
  apply Forall_cons in Hws as [Hw _]. cbn [Js.join].
  destruct w as [|d w]; [done|].
  intros Hc. exists (d :: w). split; [left|].
  destruct ws; exact Hc.
Qed.

Lemma last_join {A} (sep : list A) (ws : list (list A)) c :
  Forall (λ w, w ≠ []) ws →
  last (Js.join sep ws) = Some c → ∃ w, w ∈ ws ∧ last w = Some c.
Proof.
  intros Hws. induction ws as [|w ws IH]; [done|].
  apply Forall_cons in Hws as [Hw Hws]. cbn [Js.join].
  destruct ws as [|w' ws].
  - intros Hc. exists w. split; [left|done].
  - rewrite !last_app.
    destruct (last (Js.join sep (w' :: ws))) as [d|] eqn:Hlast.
    + intros [= ->]. destruct (IH Hws eq_refl) as (v & Hv & Hd).
      exists v. split; [by right|done].
    + exfalso. apply last_None in Hlast.
      apply Forall_cons in Hws as [Hw' _].
      cbn [Js.join] in Hlast. destruct ws; [done|].
      by apply app_eq_nil in Hlast as [? _].
Qed.

Lemma white_space_is_separator c :
  space_or_comma c = false → Js.white_space c = false.
Proof. unfold space_or_comma. by intros [? _]%orb_false_iff. Qed.

(** ** The words of a message *)

(** The words of a text made of words joined by single spaces are those
    words. *)
Lemma words_of_join ws :
  Forall (λ w, w ≠ [] ∧ Forall (λ c, space_or_comma c = false) w) ws →
  words_of (String.string_of_list_ascii (Js.join [" "%char] ws)) = ws.
Proof.
  intros Hws. unfold words_of.
  rewrite String.list_ascii_of_string_of_list_ascii.
  destruct (decide (ws = [])) as [->|Hne]; [done|].
  assert (Hnonempty : Forall (λ w, w ≠ []) ws)
    by (eapply Forall_impl; [exact Hws|]; by intros w [? _]).
  rewrite trim_tight; cycle 1.
  { intros c (w & Hw & Hc)%head_join; [|done].
    rewrite Forall_forall in Hws. destruct (Hws w Hw) as [_ Hclean].
    destruct w as [|d w]; [done|]. injection Hc as ->.
    apply Forall_cons in Hclean as [Hd _]. by apply white_space_is_separator. }
  { intros c (w & Hw & Hc)%last_join; [|done].
    rewrite Forall_forall in Hws. destruct (Hws w Hw) as [_ Hclean].
    apply last_Some in Hc as [w' ->].
    apply Forall_app in Hclean as [_ Hd].
    apply Forall_cons in Hd as [Hd _]. by apply white_space_is_separator. }
  rewrite split_runs_join by done.
  apply filter_all. eapply Forall_impl; [exact Hws|]. by intros w [? _].
Qed.

Lemma string_of_list_ascii_nil l :
  String.string_of_list_ascii l = EmptyString → l = [].
Proof. by destruct l. Qed.

Lemma elem_of_join {A} (sep : list A) (ws : list (list A)) c :
  c ∈ Js.join sep ws → c ∈ sep ∨ ∃ w, w ∈ ws ∧ c ∈ w.
Proof.
  induction ws as [|w ws IH]; [by intros ?%elem_of_nil|].
  cbn [Js.join]. destruct ws as [|w' ws].
  - intros Hc. right. exists w. split; [left|done].
  - rewrite !elem_of_app. intros [Hc | [Hc | Hc]].
    + right. exists w. split; [left|done].
    + by left.
    + destruct (IH Hc) as [?|(v & Hv & Hcv)]; [by left|].
      right. exists v. split; [by right|done].
Qed.

Lemma words_of_words input :
  Forall (λ w, w ≠ [] ∧ Forall (λ c, space_or_comma c = false) w)
         (words_of input).
Proof.
  unfold words_of. apply Forall_forall. intros w [Hne Hw]%list_elem_of_filter.
  split; [done|].
  pose proof (split_runs_clean space_or_comma [] false
                (Js.trim (String.list_ascii_of_string input))
                (Forall_nil_2 _)) as Hclean.
  rewrite Forall_forall in Hclean. by apply Hclean.
Qed.

(** The parts of a message of more than six words, and the text on display
    once both are revealed. *)
Lemma getTextParts_long_parts input :
  (6 < length (words_of input))%nat →
  let ws := words_of input in
  let n := (length ws - 4)%nat in
  getTextParts input =
    mkTextParts (String.string_of_list_ascii (Js.join [" "%char] (take n ws)))
                (String.string_of_list_ascii (Js.join [" "%char] (drop n ws))) ∧
  revealed (getTextParts input)
  = String.string_of_list_ascii (Js.join [" "%char] ws).
Proof.
  intros Hlong ws n.
  assert (Hparts : getTextParts input =
    mkTextParts (String.string_of_list_ascii (Js.join [" "%char] (take n ws)))
                (String.string_of_list_ascii (Js.join [" "%char] (drop n ws)))).
  { unfold getTextParts. fold ws.
    replace (Z.of_nat (length ws) <=? 6) with false
      by (symmetry; apply Z.leb_gt; subst ws; lia).
    destruct (slice_last_four ws) as [-> ->]; [subst ws; lia|]. done. }
  split; [exact Hparts|]. rewrite Hparts.
  assert (Htake : take n ws ≠ []).
  { intros Hnil%(f_equal length). rewrite length_take in Hnil.
    cbn in Hnil. subst n ws. lia. }
  assert (Hdrop : drop n ws ≠ []).
  { intros Hnil%(f_equal length). rewrite length_drop in Hnil.
    cbn in Hnil. subst n ws. lia. }
  assert (Hjoin : ∀ vs, vs ≠ [] → Forall (λ w : list ascii, w ≠ []) vs →
            String.string_of_list_ascii (Js.join [" "%char] vs) ≠ EmptyString).
  { intros vs Hvs Hne Hnil%string_of_list_ascii_nil.
    destruct vs as [|v vs]; [done|]. apply Forall_cons in Hne as [Hv _].
    cbn [Js.join] in Hnil. destruct vs; [done|].
    by apply app_eq_nil in Hnil as [? _]. }
  assert (Hne : Forall (λ w : list ascii, w ≠ []) ws).
  { eapply Forall_impl; [apply words_of_words|]. by intros w [? _]. }
  unfold revealed. cbn [staticText animatedText].
  rewrite !bool_decide_eq_false_2
    by (apply Hjoin; [done|]; by (apply Forall_take || apply Forall_drop)).
  rewrite <- (String.string_of_list_ascii_of_string (_ +:+ _)).
  f_equal. rewrite !list_ascii_of_string_app.
  rewrite !String.list_ascii_of_string_of_list_ascii.
  rewrite <- (take_drop n ws) at 3. rewrite join_app by done.
  by rewrite <- app_assoc.
Qed.

(** X11: the words [getTextParts] counts are not empty and hold no white
    space and no comma; joined by single spaces they are read back as the
    same words. *)
Theorem words_of_separator_free input :
  Forall (λ w, w ≠ [] ∧ Forall (λ c, space_or_comma c = false) w)
         (words_of input) ∧
  words_of (String.string_of_list_ascii
              (Js.join [" "%char] (words_of input)))
  = words_of input.
Proof. split; [apply words_of_words|]. apply words_of_join, words_of_words. Qed.

(** X12: a message of more than six words is cut between its words: the
    words of the static part followed by those of the animated part are
    the words of the message, the animated part has exactly four of them,
    and the text the reveal builds up to (the static part, a space, the
    animated part) is the words of the message joined by single spaces, so
    none of the commas of the message is in it. *)
Theorem getTextParts_long_message input :
  (6 < length (words_of input))%nat →
  let parts := getTextParts input in
  words_of (staticText parts) ++ words_of (animatedText parts)
    = words_of input ∧
  length (words_of (animatedText parts)) = 4%nat ∧
  revealed parts
    = String.string_of_list_ascii (Js.join [" "%char] (words_of input)) ∧
  ","%char ∉ String.list_ascii_of_string (revealed parts).
Proof.
  intros Hlong parts. subst parts.
  destruct (getTextParts_long_parts input Hlong) as [Hparts Hrevealed].
  pose proof (words_of_words input) as Hws.
  rewrite Hrevealed, Hparts. cbn [staticText animatedText].
  rewrite (words_of_join (take _ _)) by (by apply Forall_take).
  rewrite (words_of_join (drop _ _)) by (by apply Forall_drop).
  refine (conj (take_drop _ _) (conj _ (conj eq_refl _))).
  - rewrite length_drop. lia.
  - rewrite String.list_ascii_of_string_of_list_ascii.
    intros [Hsep | (w & Hw & Hc)]%elem_of_join.
    + by apply list_elem_of_singleton in Hsep.
    + rewrite Forall_forall in Hws. destruct (Hws w Hw) as [_ Hclean].
      rewrite Forall_forall in Hclean. by specialize (Hclean _ Hc).
Qed.


(** X14: the earlier revision's reveal shows, after any number of ticks,
    that many units from the start of the text, and all of the text from
    the tick on that completes it: further ticks change nothing. *)
Theorem reveal_shows_prefixes text ticks :
  let n := String.length text in
  reveal text ticks =
    (Z.of_nat (ticks `min` n),
     String.string_of_list_ascii
       (take (ticks `min` n) (String.list_ascii_of_string text))) ∧
  (reveal text (n + ticks)).2 = text.
Proof.
  intros n.
  assert (Hprefix : ∀ k, reveal text k =
            (Z.of_nat (k `min` n),
             String.string_of_list_ascii
               (take (k `min` n) (String.list_ascii_of_string text)))).
  { induction k as [|k IH]; [done|].
    unfold reveal in *. rewrite Nat.iter_succ, IH.
    unfold reveal_tick. cbn [fst]. fold n.
    destruct (Z.ltb_spec (Z.of_nat (k `min` n)) (Z.of_nat n)) as [Hlt|Hge].
    - unfold Js.string_slice. rewrite slice_prefix by lia.
      replace (S k `min` n)%nat with (S (k `min` n)) by lia.
      do 3 f_equal; lia.
    - by replace (S k `min` n)%nat with (k `min` n)%nat by lia. }
  split; [apply Hprefix|]. rewrite Hprefix. cbn [snd].
  replace ((n + ticks) `min` n)%nat with n by lia.
  subst n. rewrite string_length_list, firstn_all.
  apply String.string_of_list_ascii_of_string.
Qed.

End Words.

Lemma getTextParts_long_message_witness :
  let parts := Page.getTextParts "To be, or not to be: that is the question" in
  Page.staticText parts = "To be or not to be:" ∧
  Page.animatedText parts = "that is the question" ∧
  Page.revealed parts = "To be or not to be: that is the question".
Proof.
  destruct (getTextParts_long_message
              "To be, or not to be: that is the question")
    as (_ & _ & Hrevealed & _).
  - vm_compute. lia.
  - split; [by vm_compute|]. split; [by vm_compute|].
    rewrite Hrevealed. by vm_compute.
Defined.

(* ================================================================== *)
(** * Properties of FlowWriteAnimation *)
(* ================================================================== *)

Section FlowWriteFacts.
Import FlowWrite.

Lemma render_word_glyphs speed w i :
  map glyph_char (render_word speed w i).1 = w ∧
  map glyph_index (render_word speed w i).1 = seqZ i (Z.of_nat (length w)) ∧
  (render_word speed w i).2 = i + Z.of_nat (length w) ∧
  Forall (λ g, glyph_delay g = (inject_Z (glyph_index g) * speed / 1000)%Q)
         (render_word speed w i).1.
Proof.
  revert i. induction w as [|c w IH]; intros i.
  - cbn. rewrite Z.add_0_r. by repeat split.
  - destruct (IH (i + 1)) as (Hchars & Hindices & Hnext & Hdelays).
    cbn [render_word fst snd map length].
    rewrite Hchars, Hindices, Hnext.
    refine (conj eq_refl (conj _ (conj _ _))).
    + rewrite (seqZ_cons i) by lia. do 2 f_equal; lia.
    + lia.
    + by constructor.
Qed.

Lemma render_words_glyphs speed ws i :
  map (map glyph_char) (render_words speed ws i) = ws ∧
  map glyph_index (concat (render_words speed ws i))
    = seqZ i (Z.of_nat (length (concat ws))) ∧
  Forall (λ g, glyph_delay g = (inject_Z (glyph_index g) * speed / 1000)%Q)
         (concat (render_words speed ws i)).
Proof.
  revert i. induction ws as [|w ws IH]; intros i; [by repeat split|].
  destruct (render_word_glyphs speed w i) as (Hchars & Hindices & Hnext & Hdelays).
  destruct (IH (i + Z.of_nat (length w))) as (Hwords & Hrest & Hlater).
  cbn [render_words map concat].
  rewrite Hnext, Hchars, Hwords, map_app, Hindices, Hrest.
  refine (conj eq_refl (conj _ _)).
  - rewrite length_app, Nat2Z.inj_add. symmetry. apply seqZ_app; lia.
  - by apply Forall_app.
Qed.

Lemma split_at_pieces sep piece l :
  concat (split_at sep piece l) = reverse piece ++ filter (λ c, c ≠ sep) l ∧
  length (split_at sep piece l) = S (length (filter (λ c, c = sep) l)).
Proof.
  revert piece. induction l as [|c l IH]; intros piece.
  - cbn. by rewrite !app_nil_r.
  - cbn [split_at]. rewrite !(filter_cons _ c). case_bool_decide as Hc.
    + destruct (IH []) as [Hunits Hboxes].
      rewrite decide_False, decide_True by (by try intros []).
      cbn [concat length]. by rewrite Hunits, Hboxes.
    + destruct (IH (c :: piece)) as [Hunits Hboxes].
      rewrite decide_True, decide_False by done.
      rewrite Hunits, Hboxes, reverse_cons, <- app_assoc. done.
Qed.

(** X15: [FlowWriteAnimation] renders one box per piece of the text between
    two spaces (one more box than the text has spaces) and, in the boxes
    taken in order, one span for each unit of the text that is not a
    space.  The spans are numbered 0, 1, 2, ... through all the boxes, so a
    space does not count, and each span's delay is its number times
    [speed], divided by 1000. *)
Theorem FlowWriteAnimation_spans text speed :
  let boxes := FlowWriteAnimation text speed in
  let units := String.list_ascii_of_string text in
  length boxes = S (length (filter (λ c, c = " "%char) units)) ∧
  map glyph_char (concat boxes) = filter (λ c, c ≠ " "%char) units ∧
  map glyph_index (concat boxes)
    = seqZ 0 (Z.of_nat (length (concat boxes))) ∧
  Forall (λ g, glyph_delay g = (inject_Z (glyph_index g) * speed / 1000)%Q)
         (concat boxes).
Proof.
  intros boxes units. subst boxes. unfold FlowWriteAnimation. fold units.
  destruct (split_at_pieces " "%char [] units) as [Hunits Hboxes].
  destruct (render_words_glyphs speed (split_at " "%char [] units) 0)
    as (Hwords & Hindices & Hdelays).
  refine (conj _ (conj _ (conj _ Hdelays))).
  - rewrite <- Hboxes. rewrite <- Hwords at 2. by rewrite length_map.
  - by rewrite concat_map, Hwords, Hunits.
  - rewrite Hindices. do 2 f_equal.
    rewrite <- (length_map glyph_index), Hindices, length_seqZ. lia.
Qed.

End FlowWriteFacts.

(* ================================================================== *)
(** * Properties of the page's buttons *)
(* ================================================================== *)

Section StopWhileRecording.
Import Recorder RecorderRun.

(** In a well-formed state with [isRecording] set, [stopRecording] leaves
    a pending promise, and the [stop] event of the stored recorder
    resolves it with the buffered chunks followed by the non-empty ones
    flushed after [stop()]. *)
Lemma stop_while_recording flushed s :
  well_formed s → isRecording s = true →
  ∃ r, (stopRecording s).1 = PendingOn r ∧
       let s4 := deliver r flushed (stopRecording s).2 in
       (fire_stop r s4).1 =
         Some (new_Blob (chunksRef s ++ filter (λ b, 0 < blob_size b) flushed)
                        "video/webm") ∧
       isRecording (fire_stop r s4).2 = false ∧
       chunksRef (fire_stop r s4).2 = [] ∧
       console (fire_stop r s4).2 = console s ∧
       toasts (fire_stop r s4).2 = toasts s.
Proof.
  intros (_ & Hlisten & Href & Hflag & _) Hrec.
  destruct (Hflag Hrec) as [r Hr]. destruct (Href r Hr) as [m Hm].
  exists r. unfold stopRecording. rewrite Hr, Hrec. cbn [negb fst snd].
  split; [done|].
  erewrite deliver_appends; cycle 1.
  { cbn. rewrite !lookup_alter_eq, Hm. reflexivity. }
  { cbn. by eapply Hlisten. }
  unfold fire_stop, current_frameInterval; cbn.
  rewrite !lookup_alter_eq, Hm; cbn.
  rewrite ?Hr; cbn. rewrite ?lookup_alter_eq, ?Hm; cbn.
  by destruct (frameInterval m).
Qed.

End StopWhileRecording.

Section StudioFacts.
Import Studio.
Context {W H : Type} `{!Converter.FFmpegApi W H}.
Implicit Types (s : State W H).

(** X16: [handleGenerate] on a message that holds nothing but white space,
    or while the preview is not mounted, shows the error toast and does
    nothing else: no recording is started, and the animation flag, the
    download flag and the stored clip are left as they were. *)
Theorem handleGenerate_refuses_blank start env s :
  Forall (λ c, Js.white_space c = true)
         (String.list_ascii_of_string (Page.text (page s)))
  ∨ mounted s = false →
  handleGenerate start env s =
    (Returned tt,
     with_page
       (Page.mkState (Page.text (page s)) (Page.videoBlob (page s))
                     (Page.converter (page s))
                     (Page.ui (page s) ++
                      [Page.ToastError "Please enter text to animate."]))
       s).
Proof.
  intros Hblank. unfold handleGenerate. eff_unfold. cbn beta iota.
  replace (blank (Page.text (page s)) || negb (mounted s)) with true; [done|].
  symmetry. apply orb_true_iff. destruct Hblank as [Hblank | ->]; [left|by right].
  unfold blank. apply bool_decide_eq_true. by apply trim_nil.
Qed.

(** With a message to animate and the preview mounted, [handleGenerate]
    clears the download flag, sets the animation flag, announces the
    recording and calls [startRecording]. *)
Lemma handleGenerate_starts start env s :
  blank (Page.text (page s)) = false → mounted s = true →
  handleGenerate start env s =
    ((start env (recorder s)).1,
     mkState
       (Page.mkState (Page.text (page s)) (Page.videoBlob (page s))
                     (Page.converter (page s))
                     (Page.ui (page s) ++
                      [Page.ToastInfo "Starting animation and recording..."]))
       (start env (recorder s)).2
       (displayText s) true (showCursor s) false (mounted s)).
Proof.
  intros Hblank Hmounted. unfold handleGenerate. eff_unfold. cbn beta iota.
  rewrite Hblank, Hmounted. cbn [orb negb].
  unfold toast, in_page, in_recorder, Page.show, modify. cbn beta iota.
  unfold setCanDownload, setIsAnimating, with_page, with_recorder.
  cbn [page recorder displayText isAnimating showCursor canDownload mounted
       fst snd].
  destruct (start env (recorder s)) as [[[]|e] rec]; by rewrite Hmounted.
Qed.

(** The callback that ends a recording, when the flag is set and the
    [stop] event of the stored recorder resolves the promise with
    [blob]. *)
Lemma stop_when_over_resolved flushed s r blob :
  Recorder.isRecording (recorder s) = true →
  (Recorder.stopRecording (recorder s)).1 = Recorder.PendingOn r →
  let s4 := Recorder.deliver r flushed (Recorder.stopRecording (recorder s)).2 in
  (Recorder.fire_stop r s4).1 = Some blob →
  stop_when_over flushed s =
    (Returned tt,
     mkState
       (Page.mkState (Page.text (page s)) (Some blob)
                     (Page.converter (page s))
                     (Page.ui (page s) ++
                      [Page.ToastSuccess "Animation recorded! Ready to download."]))
       (Recorder.fire_stop r s4).2
       (displayText s) (isAnimating s) (showCursor s) true (mounted s)).
Proof.
  intros Hrec Hpending s4 Hblob. subst s4.
  unfold stop_when_over. eff_unfold. cbn beta iota. rewrite Hrec.
  unfold in_recorder.
  destruct (Recorder.stopRecording (recorder s)) as [p s3].
  cbn [fst snd] in *. subst p.
  cbn [recorder with_recorder].
  destruct (Recorder.fire_stop r (Recorder.deliver r flushed s3))
    as [resolved s5].
  cbn [fst snd] in *. subst resolved.
  unfold toast, in_page, Page.show, modify. reflexivity.
Qed.

(** X17: the callback that ends a recording.  While the recorder hook is
    in a well-formed state (as it always is) it never shows
    "Recording failed": if [isRecording] is not set it does nothing at
    all, and if it is set it stops the recorder and, at the [stop] event,
    stores one clip, sets the download flag and shows the success toast.
    The clip holds the buffered chunks and the non-empty chunks flushed
    after [stop()]; it is stored and offered for download whatever its
    size, also when it holds no byte. *)
Theorem stop_when_over_stores_clip flushed s :
  RecorderRun.well_formed (recorder s) →
  let done := stop_when_over flushed s in
  done.1 = Returned tt ∧
  if Recorder.isRecording (recorder s) then
    Page.videoBlob (page done.2) =
      Some (new_Blob (Recorder.chunksRef (recorder s) ++
                      filter (λ b, 0 < blob_size b) flushed) "video/webm") ∧
    canDownload done.2 = true ∧
    download_offered done.2 = true ∧
    Page.ui (page done.2) =
      Page.ui (page s) ++
      [Page.ToastSuccess "Animation recorded! Ready to download."]
  else done.2 = s.
Proof.
  intros Hwf done. subst done.
  destruct (Recorder.isRecording (recorder s)) eqn:Hrec.
  - destruct (stop_while_recording flushed (recorder s) Hwf Hrec)
      as (r & Hpending & Hblob & Hflag & _).
    rewrite (stop_when_over_resolved flushed s r _ Hrec Hpending Hblob).
    unfold download_offered. cbn [fst snd page recorder canDownload
                                  Page.videoBlob Page.ui].
    by rewrite Hflag.
  - unfold stop_when_over. eff_unfold. cbn beta iota. by rewrite Hrec.
Qed.


(** X19: Reset neither stops a running recording nor cancels the callback
    that ends it (the page never calls [clearTimeout]).  [handleReset]
    forgets the stored clip and withdraws the download, and leaves the
    recorder hook as it was: still recording.  When the callback that had
    been scheduled fires after the reset (the recorder hook has not changed
    since, so the [isRecording] it closed over is the one read here), the
    clip is stored and the download is offered again. *)
Theorem handleReset_keeps_recording flushed s :
  RecorderRun.well_formed (recorder s) →
  Recorder.isRecording (recorder s) = true →
  let s1 := (handleReset s).2 in
  let done := (stop_when_over flushed s1).2 in
  recorder s1 = recorder s ∧
  Page.videoBlob (page s1) = None ∧
  download_offered s1 = false ∧
  (isAnimating s1, displayText s1, showCursor s1)
    = (false, EmptyString, false) ∧
  Page.videoBlob (page done) =
    Some (new_Blob (Recorder.chunksRef (recorder s) ++
                    filter (λ b, 0 < blob_size b) flushed) "video/webm") ∧
  download_offered done = true.
Proof.
  intros Hwf Hrec s1 done.
  assert (Hs1 : s1 =
    mkState
      (Page.mkState (Page.text (page s)) None (Page.converter (page s))
                    (Page.ui (page s) ++ [Page.ToastInfo "Animation reset."]))
      (recorder s) EmptyString false false false (mounted s)).
  { subst s1. unfold handleReset, toast, in_page, Page.show.
    eff_unfold. reflexivity. }
  assert (Hwf1 : RecorderRun.well_formed (recorder s1)) by (by rewrite Hs1).
  assert (Hrec1 : Recorder.isRecording (recorder s1) = true) by (by rewrite Hs1).
  destruct (stop_while_recording flushed (recorder s1) Hwf1 Hrec1)
    as (r & Hpending & Hblob & Hflag & _).
  subst done.
  rewrite (stop_when_over_resolved flushed s1 r _ Hrec1 Hpending Hblob).
  unfold download_offered.
  cbn [fst snd page recorder canDownload Page.videoBlob]. rewrite Hflag.
  rewrite Hs1. cbn [page recorder canDownload isAnimating displayText
                    showCursor Page.videoBlob andb].
  done.
Qed.

End StudioFacts.

Lemma handleGenerate_refuses_blank_witness :
  let s := studio_with_text "   " in
  Studio.handleGenerate Recorder.TextDraw.startRecording all_well s =
    (Returned tt,
     Studio.with_page
       (Page.mkState "   " None (Converter.initial CopyEngine.up)
                     [Page.ToastError "Please enter text to animate."])
       s).
Proof.
  apply (handleGenerate_refuses_blank Recorder.TextDraw.startRecording all_well
           (studio_with_text "   ")).
  left. vm_compute. by repeat constructor.
Defined.

Lemma stop_when_over_stores_clip_witness :
  let s := Studio.with_recorder recording_one_chunk (studio_with_text "ink") in
  let done := Studio.stop_when_over [chunk_empty; chunk_b] s in
  done.1 = Returned tt ∧
  Page.videoBlob (Studio.page done.2)
    = Some (mkBlob [Byte.x1a; Byte.x45; Byte.xdf] "video/webm").
Proof.
  intros s done.
  assert (Hwf : RecorderRun.well_formed (Studio.recorder s)).
  { apply (well_formed_data 2 chunk_a).
    apply (well_formed_start RecorderRun.ByTextDraw all_well).
    apply well_formed_initial. }
  destruct (stop_when_over_stores_clip [chunk_empty; chunk_b] s Hwf)
    as [Hreturned _].
  split; [exact Hreturned|]. by vm_compute.
Defined.


Lemma handleReset_keeps_recording_witness :
  let s := Studio.with_recorder recording_one_chunk (studio_with_text "ink") in
  let s1 := (Studio.handleReset s).2 in
  let done := (Studio.stop_when_over [chunk_b] s1).2 in
  Recorder.isRecording (Studio.recorder s1) = true ∧
  Page.videoBlob (Studio.page done)
    = Some (mkBlob [Byte.x1a; Byte.x45; Byte.xdf] "video/webm") ∧
  Studio.download_offered done = true.
Proof.
  intros s s1 done.
  assert (Hwf : RecorderRun.well_formed (Studio.recorder s)).
  { apply (well_formed_data 2 chunk_a).
    apply (well_formed_start RecorderRun.ByTextDraw all_well).
    apply well_formed_initial. }
  destruct (handleReset_keeps_recording [chunk_b] s Hwf)
    as (_ & _ & _ & _ & _ & Hoffered).
  - by vm_compute.
  - split; [by vm_compute|]. split; [by vm_compute|]. exact Hoffered.
Defined.

(* ================================================================== *)
(** * The end of the recording *)
(* ================================================================== *)

Section TimingFacts.
Import Timing.

Lemma Qmax_zero_cases (x : Q) :
  ((x <= 0 ∧ Qmax x 0 == 0) ∨ (0 <= x ∧ Qmax x 0 == x))%Q.
Proof.
  destruct (Qlt_le_dec 0 x) as [Hpos|Hneg].
  - right. split; [by apply Qlt_le_weak|]. apply Q.max_l. by apply Qlt_le_weak.
  - left. split; [done|]. by apply Q.max_r.
Qed.

(** X20: in the earlier revision, once the last unit is revealed the
    recording goes on for at least one second and at most three, whatever
    the style, the message and the position of the speed slider: exactly
    one second for the typewriter, exactly three for the shimmer, and
    between one and one and a half for the fluid and flowwrite styles. *)
Theorem extraTime_bounds animationStyle speed text :
  slider speed →
  let extra := extraTime animationStyle speed text in
  (1000 <= extra)%Q ∧ (extra <= 3000)%Q ∧
  match animationStyle with
  | typewriter => (extra == 1000)%Q
  | shimmer => (extra == 3000)%Q
  | fluid | flowwrite => (extra <= 1500)%Q
  end.
Proof.
  intros (k & Hk & ->) extra. subst extra.
  unfold extraTime, calculateAnimationDuration.
  set (n := inject_Z (Z.of_nat (String.length text))).
  assert (Hn : (0 <= n)%Q).
  { subst n. change 0%Q with (inject_Z 0). rewrite <- Zle_Qle. lia. }
  assert (Hlow : (50 <= inject_Z (10 * k))%Q).
  { change 50%Q with (inject_Z 50). rewrite <- Zle_Qle. lia. }
  set (speed := inject_Z (10 * k)) in *. clearbody speed n. clear k Hk.
  assert (Hproduct : (0 <= n * (speed - 50))%Q).
  { apply Qmult_le_0_compat; [done|]. lra. }
  destruct animationStyle.
  - match goal with |- context [Qmax ?x 0] =>
      destruct (Qmax_zero_cases x) as [[Hx ->] | [Hx ->]] end;
      repeat split; lra.
  - match goal with |- context [Qmax ?x 0] =>
      destruct (Qmax_zero_cases x) as [[Hx ->] | [Hx ->]] end;
      repeat split; lra.
  - match goal with |- context [Qmax ?x 0] =>
      destruct (Qmax_zero_cases x) as [[Hx ->] | [Hx ->]] end;
      repeat split; lra.
  - assert (Hspent : (0 <= n * speed)%Q)
      by (apply Qmult_le_0_compat; [done|lra]).
    assert (Htenth : (n * (speed / 10) == (1 # 10) * (n * speed))%Q) by field.
    match goal with |- context [Qmax ?x 0] =>
      destruct (Qmax_zero_cases x) as [[Hx ->] | [Hx ->]] end;
      rewrite ?Htenth; repeat split; lra.
Qed.

End TimingFacts.

Lemma extraTime_bounds_witness :
  (1000 <= Timing.extraTime Timing.fluid 100 "ink")%Q ∧
  (Timing.extraTime Timing.fluid 100 "ink" <= 1500)%Q.
Proof.
  destruct (extraTime_bounds Timing.fluid 100 "ink") as (Hleast & _ & Hmost).
  - exists 10. split; [lia|reflexivity].
  - split; [exact Hleast | exact Hmost].
Defined.
